(** * reddit/create_data.py : a shallow embedding and its properties

    The pure core of the Dataflow script is embedded function by function:
    [normalise_comment], [_normalise_id], [trim], [_should_skip],
    [create_examples], [linear_paths], [_add_string_feature] and the two
    methods of [_TrainTestSplitFn].

    Conventions.
    - A Python [str] is a [string]; [len], indexing and slicing are the
      helpers of [Module Py], which raise where Python raises.
    - A Python exception is the [Raise] outcome of [result].  The two
      [while] loops are run on fuel; running out of it is the separate
      outcome [OutOfFuel], which is proved unreachable for the fuel the
      embedding supplies.
    - A [dict] is an association list in insertion order with unique keys.
    - Library functions that are not part of the script ([str.isalnum],
      [str.encode], [hashlib.md5]) are Section variables. *)

From Stdlib Require Import List String Ascii Bool Arith Lia ZArith NArith.
From Stdlib Require Import QArith Permutation DecimalString DecimalNat.
From Stdlib.Strings Require Import Byte.
Import ListNotations.
Local Open Scope string_scope.
Local Open Scope list_scope.
Local Open Scope nat_scope.

(** ** Outcomes *)

Inductive exn : Type :=
| IndexError
| KeyError
| ValueError
| ZeroDivisionError.

Inductive result (A : Type) : Type :=
| Ok (a : A)
| Raise (e : exn)
| OutOfFuel.

Arguments Ok {A} a.
Arguments Raise {A} e.
Arguments OutOfFuel {A}.

Definition bind {A B : Type} (m : result A) (k : A -> result B) : result B :=
  match m with
  | Ok a => k a
  | Raise e => Raise e
  | OutOfFuel => OutOfFuel
  end.

Notation "x <- m ;; k" := (bind m (fun x => k))
  (at level 61, m at next level, right associativity).
Notation "' p <- m ;; k" := (bind m (fun p => k))
  (at level 61, p pattern, m at next level, right associativity).

(** ** Python sequences *)

Module Py.

(** [s[-k]] for [k >= 1]: [IndexError] when [s] has fewer than [k]
    characters. *)
Definition str_index_neg (s : string) (k : nat) : result ascii :=
  if String.length s <? k then Raise IndexError
  else match String.get (String.length s - k) s with
       | Some c => Ok c
       | None => Raise IndexError
       end.

(** [s[:n]]. *)
Definition str_slice_to (s : string) (n : nat) : string :=
  String.substring 0 n s.

(** [s[:-1]]; the empty string stays empty. *)
Definition str_drop_last (s : string) : string :=
  String.substring 0 (String.length s - 1) s.

(** [l[-k]] for [k >= 1]. *)
Definition index_neg {A : Type} (l : list A) (k : nat) : result A :=
  if List.length l <? k then Raise IndexError
  else match nth_error l (List.length l - k) with
       | Some x => Ok x
       | None => Raise IndexError
       end.

(** [l[-k:]] for [k >= 0].  Python reads [-0] as [0], so [l[-0:]] is the
    whole list; a [k] beyond the length also gives the whole list. *)
Definition slice_from_neg {A : Type} (l : list A) (k : nat) : list A :=
  if k =? 0 then l else skipn (List.length l - k) l.

(** [x in l] for a list or a set of strings. *)
Definition mem (x : string) (l : list string) : bool :=
  existsb (String.eqb x) l.

End Py.

(** ** Dictionaries *)

Module Dict.

Definition t (V : Type) : Type := list (string * V).

Definition keys {V : Type} (d : t V) : list string := map fst d.

(** [d[k]], as an option; the callers raise [KeyError] on [None]. *)
Fixpoint get {V : Type} (d : t V) (k : string) : option V :=
  match d with
  | [] => None
  | (k', v) :: d' => if String.eqb k k' then Some v else get d' k
  end.

(** [k in d]. *)
Definition mem {V : Type} (d : t V) (k : string) : bool :=
  match get d k with Some _ => true | None => false end.

(** [d[k] = v]: an existing key keeps its place, a new one goes last. *)
Fixpoint setitem {V : Type} (d : t V) (k : string) (v : V) : t V :=
  match d with
  | [] => [(k, v)]
  | (k', v') :: d' =>
      if String.eqb k k' then (k', v) :: d' else (k', v') :: setitem d' k v
  end.

(** [d[k]] on a [defaultdict(list)].  Python also stores the fresh empty
    list under a missing key; every later read of that key gives the same
    empty list, so the store is left out. *)
Definition get_default {V : Type} (d : t (list V)) (k : string) : list V :=
  match get d k with Some l => l | None => [] end.

(** [d[k].append(x)] on a [defaultdict(list)]. *)
Definition append {V : Type} (d : t (list V)) (k : string) (x : V)
  : t (list V) :=
  setitem d k (get_default d k ++ [x]).

(** [d[k]] on a plain dict. *)
Definition getitem {V : Type} (d : t V) (k : string) : result V :=
  match get d k with Some v => Ok v | None => Raise KeyError end.

(** The invariant of a Python dict: no key occurs twice. *)
Definition wf {V : Type} (d : t V) : Prop := NoDup (keys d).

End Dict.

(** ** Comments *)

(** A row of the BigQuery table, as [normalise_comment] reads it.  The
    record type stands for the table schema: a row has all six fields. *)
Record Row : Type := mkRow {
  row_id : string;
  row_link_id : string;
  row_parent_id : string;
  row_body : string;
  row_author : string;
  row_subreddit : string
}.

(** The namedtuple [Comment]. *)
Record Comment : Type := mkComment {
  id : string;
  thread_id : string;
  parent_id : string;
  body : string;
  body_is_trimmed : bool;
  author : string;
  subreddit : string
}.

(** ** Comment normaliser *)

Definition is_digit (c : ascii) : bool :=
  let n := nat_of_ascii c in (48 <=? n) && (n <=? 57).

(** A match of the pattern [^t[0-9]_]: what follows it in the string.
    Without [re.MULTILINE] the anchor holds at position 0 only. *)
Definition match_type_tag (s : string) : option string :=
  match s with
  | String c1 (String d (String c3 rest)) =>
      if Ascii.eqb c1 "t" && is_digit d && Ascii.eqb c3 "_"
      then Some rest else None
  | _ => None
  end.

(** [re.sub("^t[0-9]_", "", raw_id)]: the pattern can match once only, and
    the match is replaced by the empty string. *)
Definition _normalise_id (raw_id : string) : string :=
  match match_type_tag raw_id with
  | Some rest => rest
  | None => raw_id
  end.

Section Trim.

(** [str.isalnum] on one character. *)
Variable isalnum : ascii -> bool.

(** The loop
    [while text and (text[-1].isalnum() == text[-2].isalnum()):
         text = text[:-1]]. *)
Fixpoint trim_loop (fuel : nat) (text : string) : result string :=
  match fuel with
  | O => OutOfFuel
  | S fuel' =>
      if String.length text =? 0 then Ok text
      else
        a <- Py.str_index_neg text 1 ;;
        b <- Py.str_index_neg text 2 ;;
        if Bool.eqb (isalnum a) (isalnum b)
        then trim_loop fuel' (Py.str_drop_last text)
        else Ok text
  end.

Definition trim (text : string) (max_length : nat) : result string :=
  if String.length text <=? max_length then Ok text
  else
    let text := Py.str_slice_to text (max_length + 1) in
    text <- trim_loop (S (String.length text)) text ;;
    Ok (Py.str_drop_last text).

(** The keyword arguments are evaluated in the order they are written,
    so [trim] runs, and may raise, before the flag is computed. *)
Definition normalise_comment (comment : Row) (max_length : nat)
  : result Comment :=
  b <- trim (row_body comment) max_length ;;
  Ok {| id := row_id comment;
        thread_id := _normalise_id (row_link_id comment);
        parent_id := _normalise_id (row_parent_id comment);
        body := b;
        body_is_trimmed := max_length <? String.length (row_body comment);
        author := row_author comment;
        subreddit := row_subreddit comment |}.

End Trim.

(** [str.isalnum] restricted to ASCII letters and digits, for running the
    embedding on concrete bodies. *)
Definition ascii_isalnum (c : ascii) : bool :=
  let n := nat_of_ascii c in
  ((48 <=? n) && (n <=? 57)) || ((65 <=? n) && (n <=? 90))
  || ((97 <=? n) && (n <=? 122)).

(** ** Path builder *)

(** [seen_ids.add(x)]. *)
Definition set_add (x : string) (s : list string) : list string :=
  if Py.mem x s then s else x :: s.

(** The state of the first loop of [linear_paths]:
    [(paths, seen_ids, id_to_children)]. *)
Definition index_state : Type :=
  (list (list string) * list string * Dict.t (list string))%type.

(** One iteration of [for comment_id, comment in id_to_comment.items()]. *)
Definition index_step (id_to_comment : Dict.t Comment) (st : index_state)
  (item : string * Comment) : index_state :=
  let '(paths, seen_ids, id_to_children) := st in
  let '(comment_id, comment) := item in
  let id_to_children :=
    Dict.append id_to_children (parent_id comment) comment_id in
  if negb (Dict.mem id_to_comment (parent_id comment))
  then (paths ++ [[comment_id]], set_add comment_id seen_ids, id_to_children)
  else (paths, seen_ids, id_to_children).

Definition build_index (id_to_comment : Dict.t Comment) : index_state :=
  fold_left (index_step id_to_comment) id_to_comment ([], [], []).

(** [for child_id in id_to_children[last_id]] for one [path]: the new paths
    appended (and yielded) in order, and the updated [seen_ids]. *)
Fixpoint extend_path (parent_depth : nat) (path : list string)
  (children : list string) (seen_ids : list string)
  : list (list string) * list string :=
  match children with
  | [] => ([], seen_ids)
  | child_id :: children' =>
      if Py.mem child_id seen_ids
      then extend_path parent_depth path children' seen_ids
      else
        let new_path := Py.slice_from_neg path parent_depth ++ [child_id] in
        let '(new_paths, seen_ids') :=
          extend_path parent_depth path children' (set_add child_id seen_ids)
        in (new_path :: new_paths, seen_ids')
  end.

(** [for path in paths]: one round of the [while] loop.  Every path that
    is appended to [new_paths] is yielded at once, so the round yields its
    [new_paths], in order. *)
Fixpoint extend_paths (parent_depth : nat)
  (id_to_children : Dict.t (list string)) (paths : list (list string))
  (seen_ids : list string) : result (list (list string) * list string) :=
  match paths with
  | [] => Ok ([], seen_ids)
  | path :: paths' =>
      last_id <- Py.index_neg path 1 ;;
      let '(new_paths, seen_ids') :=
        extend_path parent_depth path
          (Dict.get_default id_to_children last_id) seen_ids in
      ' (new_paths', seen_ids'') <-
        extend_paths parent_depth id_to_children paths' seen_ids' ;;
      Ok (new_paths ++ new_paths', seen_ids'')
  end.

(** [while paths: ...], yielding the paths of all rounds. *)
Fixpoint paths_loop (fuel : nat) (parent_depth : nat)
  (id_to_children : Dict.t (list string)) (paths : list (list string))
  (seen_ids : list string) : result (list (list string)) :=
  match paths with
  | [] => Ok []
  | _ :: _ =>
      match fuel with
      | O => OutOfFuel
      | S fuel' =>
          ' (new_paths, seen_ids') <-
            extend_paths parent_depth id_to_children paths seen_ids ;;
          rest <- paths_loop fuel' parent_depth id_to_children
                    new_paths seen_ids' ;;
          Ok (new_paths ++ rest)
      end
  end.

(** The generator, as the list of what it yields. *)
Definition linear_paths (id_to_comment : Dict.t Comment) (parent_depth : nat)
  : result (list (list string)) :=
  let '(paths, seen_ids, id_to_children) := build_index id_to_comment in
  paths_loop (S (List.length id_to_comment)) parent_depth
    id_to_children paths seen_ids.

(** ** Example generator *)

Definition _should_skip (comment : Comment) (min_length : nat) : bool :=
  if body_is_trimmed comment then true
  else if Py.mem (body comment) ["[deleted]"; "[removed]"] then true
  else if String.length (body comment) <? min_length then true
  else false.

Definition bytes : Type := list byte.

(** A [tf.train.Example], as its map from feature name to the values of
    the feature's [bytes_list].  [SerializeToString] followed by
    [ParseFromString] gives the same map back, so a serialized example is
    this map as well. *)
Definition Example : Type := Dict.t (list bytes).

(** ["{}".format(i)]. *)
Definition format_nat (i : nat) : string :=
  NilEmpty.string_of_uint (Nat.to_uint i).

(** [{comment.id: comment for comment in list(thread)}]. *)
Definition index_thread (thread : list Comment) : Dict.t Comment :=
  fold_left (fun d comment => Dict.setitem d (id comment) comment) thread [].

Section Examples.

(** [str.encode("utf-8")]. *)
Variable encode_utf8 : string -> bytes.

Definition _add_string_feature (example : Example) (feature_name : string)
  (value : string) : Example :=
  Dict.append example feature_name (encode_utf8 value).

(** [for i in range(parent_depth - 1)], from [i] on, with [n] iterations
    left; [IndexError] on [linear_path[-3 - i]] breaks out of the loop. *)
Fixpoint add_contexts (id_to_comment : Dict.t Comment)
  (linear_path : list string) (example : Example) (i n : nat)
  : result Example :=
  match n with
  | O => Ok example
  | S n' =>
      match Py.index_neg linear_path (3 + i) with
      | Raise IndexError => Ok example
      | Raise e => Raise e
      | OutOfFuel => OutOfFuel
      | Ok context_i =>
          c <- Dict.getitem id_to_comment context_i ;;
          add_contexts id_to_comment linear_path
            (_add_string_feature example ("context/" ++ format_nat i)
               (body c))
            (S i) n'
      end
  end.

(** The body of [for linear_path in linear_paths(...)]: [None] for
    [continue], [Some] for the yielded example. *)
Definition example_of_path (id_to_comment : Dict.t Comment)
  (parent_depth min_length : nat) (linear_path : list string)
  : result (option Example) :=
  response_id <- Py.index_neg linear_path 1 ;;
  response <- Dict.getitem id_to_comment response_id ;;
  context_id <- Py.index_neg linear_path 2 ;;
  context <- Dict.getitem id_to_comment context_id ;;
  if _should_skip response min_length || _should_skip context min_length
  then Ok None
  else
    let example : Example := [] in
    let example := _add_string_feature example "subreddit"
                     (subreddit response) in
    let example := _add_string_feature example "thread_id"
                     (thread_id response) in
    let example := _add_string_feature example "context_author"
                     (author context) in
    let example := _add_string_feature example "response_author"
                     (author response) in
    let example := _add_string_feature example "context" (body context) in
    let example := _add_string_feature example "response"
                     (body response) in
    example <- add_contexts id_to_comment linear_path example 0
                 (parent_depth - 1) ;;
    Ok (Some example).

Fixpoint examples_of_paths (id_to_comment : Dict.t Comment)
  (parent_depth min_length : nat) (paths : list (list string))
  : result (list Example) :=
  match paths with
  | [] => Ok []
  | linear_path :: paths' =>
      e <- example_of_path id_to_comment parent_depth min_length
             linear_path ;;
      es <- examples_of_paths id_to_comment parent_depth min_length
              paths' ;;
      Ok (match e with Some example => example :: es | None => es end)
  end.

(** The generator, as the list of what it yields.  [linear_paths] shares
    no mutable state with the loop body, so running it to the end first
    gives the same examples as the interleaved run. *)
Definition create_examples (thread : list Comment)
  (parent_depth min_length : nat) : result (list Example) :=
  let id_to_comment := index_thread thread in
  paths <- linear_paths id_to_comment parent_depth ;;
  examples_of_paths id_to_comment parent_depth min_length paths.

End Examples.

(** ** Split assigner *)

Definition TRAIN_TAG : string := "train".
Definition TEST_TAG : string := "test".

Definition Qltb (x y : Q) : bool :=
  (Qnum x * QDen y <? Qnum y * QDen x)%Z.

Section Split.

(** [int(hashlib.md5(data).hexdigest(), 16)]: the digest as an unsigned
    integer. *)
Variable md5 : bytes -> N.

(** [(1 + md5_digest % num_buckets) / float(num_buckets)], as the exact
    quotient.  The float quotient is that same number whenever
    [num_buckets] is a power of two up to [2^53], as 4096 is. *)
Definition _split_value (num_buckets : N) (thread_id : bytes) : result Q :=
  if (num_buckets =? 0)%N then Raise ZeroDivisionError
  else
    let md5_digest := md5 thread_id in
    Ok (Qmake (Z.of_N (1 + md5_digest mod num_buckets))
              (Z.to_pos (Z.of_N num_buckets))).

(** [process]: the one [TaggedOutput] it yields.  [train_split] is the
    exact value of the float threshold. *)
Definition process (train_split : Q) (num_buckets : N)
  (serialized_example : Example) : result (string * Example) :=
  match Dict.get_default serialized_example "thread_id" with
  | [thread_id] =>
      split_value <- _split_value num_buckets thread_id ;;
      let split :=
        if Qltb split_value train_split then TRAIN_TAG else TEST_TAG in
      Ok (split, serialized_example)
  | _ => Raise ValueError
  end.

End Split.

(** The default of [num_buckets] in [_TrainTestSplitFn.__init__]. *)
Definition default_num_buckets : N := 4096.

(** ** Predicates of the statements *)

(** The last element of a path. *)
Definition last_id (path : list string) : string := List.last path "".

(** [child] is a key of the dict and its comment's [parent_id] is
    [parent]. *)
Definition direct_reply (id_to_comment : Dict.t Comment)
  (parent child : string) : bool :=
  match Dict.get id_to_comment child with
  | Some c => String.eqb (parent_id c) parent
  | None => false
  end.

(** Each element after the first is a direct reply to the one before. *)
Fixpoint reply_chain (id_to_comment : Dict.t Comment) (path : list string)
  : bool :=
  match path with
  | a :: (b :: _) as rest =>
      direct_reply id_to_comment a b && reply_chain id_to_comment rest
  | _ => true
  end.

(** A comment whose parent is not in the dict. *)
Definition is_root (id_to_comment : Dict.t Comment)
  (item : string * Comment) : bool :=
  negb (Dict.mem id_to_comment (parent_id (snd item))).

(** The keys of the roots among [items], in order. *)
Definition root_ids (id_to_comment : Dict.t Comment)
  (items : list (string * Comment)) : list string :=
  map fst (filter (is_root id_to_comment) items).

(** How many keys of the dict are not in [seen_ids]. *)
Definition unseen_count (id_to_comment : Dict.t Comment)
  (seen_ids : list string) : nat :=
  List.length (filter (fun k => negb (Py.mem k seen_ids))
                 (Dict.keys id_to_comment)).

(** All characters of [s] before position [n] are on the side of the
    first one. *)
Definition single_run (isalnum : ascii -> bool) (s : string) (n : nat)
  : Prop :=
  forall i a b, i < n -> String.get i s = Some a ->
                String.get 0 s = Some b -> isalnum a = isalnum b.

(** Position [k] of [s] is a cut between an alphanumeric character and
    one that is not. *)
Definition boundary_at (isalnum : ascii -> bool) (s : string) (k : nat)
  : Prop :=
  exists a b, String.get (k - 1) s = Some a /\ String.get k s = Some b
              /\ isalnum a <> isalnum b.

(** What holds of every path on the work-list: it is not empty, it is a
    chain of direct replies between keys of the dict, and for a positive
    [parent_depth] it has at most [parent_depth + 1] elements. *)
Definition path_ok (id_to_comment : Dict.t Comment) (parent_depth : nat)
  (path : list string) : Prop :=
  path <> []
  /\ reply_chain id_to_comment path = true
  /\ Forall (fun x => In x (Dict.keys id_to_comment)) path
  /\ (1 <= parent_depth -> List.length path <= parent_depth + 1).

(** What holds of every yielded path. *)
Definition yielded_ok (id_to_comment : Dict.t Comment) (parent_depth : nat)
  (path : list string) : Prop :=
  2 <= List.length path /\ path_ok id_to_comment parent_depth path.

(** Every entry of the reverse index is a direct reply to its key. *)
Definition children_ok (id_to_comment : Dict.t Comment)
  (id_to_children : Dict.t (list string)) : Prop :=
  forall p x, In x (Dict.get_default id_to_children p) ->
              direct_reply id_to_comment p x = true.

(** ** Sample threads *)

Definition sample_comment (i p b : string) : Comment :=
  {| id := i; thread_id := "abc"; parent_id := p; body := b;
     body_is_trimmed := false; author := "x"; subreddit := "r" |}.

(** The chain A (root) -> B -> C -> D of thread ["abc"]. *)
Definition chain_thread : list Comment :=
  [ sample_comment "A" "abc" "the first comment";
    sample_comment "B" "A" "a reply to the first";
    sample_comment "C" "B" "[deleted]";
    sample_comment "D" "C" "a reply to the deleted" ].

(** A thread with malformed parent references: P and Q name each other as
    parent, S names itself; R is a root with the reply X. *)
Definition cyclic_thread : list Comment :=
  [ sample_comment "P" "Q" "first of a cycle";
    sample_comment "Q" "P" "second of a cycle";
    sample_comment "S" "S" "its own parent";
    sample_comment "R" "abc" "a root comment";
    sample_comment "X" "R" "a reply to the root" ].

(** The chain extended by E, a reply to D. *)
Definition deep_thread : list Comment :=
  chain_thread ++ [sample_comment "E" "D" "a reply further down"].

(** A stand-in for the digest, for running the split on concrete input. *)
Definition sample_digest (data : bytes) : N :=
  fold_left (fun h b => (h * 257 + Byte.to_N b + 1)%N) data 0%N.

(** ** The fields of an example *)

(** What the loop body of [create_examples] contributes to the output. *)
Definition yields_of (outcome : option Example) : list Example :=
  match outcome with
  | Some example => [example]
  | None => []
  end.

(** The body of the comment at reverse index [-3 - i] of a path (the empty
    string where there is none). *)
Definition ancestor_body (id_to_comment : Dict.t Comment)
  (path : list string) (i : nat) : string :=
  match nth_error path (List.length path - (3 + i)) with
  | Some a =>
      match Dict.get id_to_comment a with
      | Some c => body c
      | None => ""
      end
  | None => ""
  end.

Section Fields.

Variable encode_utf8 : string -> bytes.

Definition base_fields (response context : Comment) : Example :=
  [ ("subreddit", [encode_utf8 (subreddit response)]);
    ("thread_id", [encode_utf8 (thread_id response)]);
    ("context_author", [encode_utf8 (author context)]);
    ("response_author", [encode_utf8 (author response)]);
    ("context", [encode_utf8 (body context)]);
    ("response", [encode_utf8 (body response)]) ].

Definition context_field (id_to_comment : Dict.t Comment)
  (path : list string) (i : nat) : string * list bytes :=
  (("context/" ++ format_nat i)%string,
   [encode_utf8 (ancestor_body id_to_comment path i)]).

(** The six fields of the pair, then one [context/i] per ancestor that
    the window and the path both allow. *)
Definition example_fields (id_to_comment : Dict.t Comment)
  (parent_depth : nat) (path : list string) (response context : Comment)
  : Example :=
  base_fields response context
  ++ map (context_field id_to_comment path)
       (seq 0 (Nat.min (parent_depth - 1) (List.length path - 2))).

End Fields.

(** ** Reachability in a thread *)

(** A comment descends from a root: it is a root itself, or a reply to a
    comment that descends from one. *)
Inductive reachable (id_to_comment : Dict.t Comment) : string -> Prop :=
| reach_root (k : string) (c : Comment) :
    Dict.get id_to_comment k = Some c ->
    Dict.mem id_to_comment (parent_id c) = false ->
    reachable id_to_comment k
| reach_reply (k : string) (c : Comment) :
    Dict.get id_to_comment k = Some c ->
    reachable id_to_comment (parent_id c) ->
    reachable id_to_comment k.

(** A comment of the dict whose parent is in the dict as well. *)
Definition is_reply (id_to_comment : Dict.t Comment) (k : string) : bool :=
  match Dict.get id_to_comment k with
  | Some c => Dict.mem id_to_comment (parent_id c)
  | None => false
  end.

(** The first element of a path is a root of the dict. *)
Definition starts_at_root (id_to_comment : Dict.t Comment)
  (path : list string) : Prop :=
  exists r rest, path = r :: rest /\ In r (root_ids id_to_comment id_to_comment).

(** Two non-empty paths with the same last element. *)
Definition same_end (p q : list string) : Prop :=
  p <> [] /\ q <> [] /\ last_id p = last_id q.

(** Two paths that end in the same two elements. *)
Definition same_pair (p q : list string) : Prop :=
  exists a b p' q', p = p' ++ [a; b] /\ q = q' ++ [a; b].

(** * Properties *)

(** ** Strings and slices *)

Lemma length_substring0 (s : string) (n : nat) :
  String.length (String.substring 0 n s) = Nat.min n (String.length s).
Proof.
  revert n; induction s as [|c s IH]; intros [|n]; simpl; auto.
Qed.

Lemma get_substring0 (s : string) (n i : nat) :
  i < n -> String.get i (String.substring 0 n s) = String.get i s.
Proof.
  revert n i; induction s as [|c s IH]; intros [|n] [|i] Hi; simpl;
    try lia; auto.
  apply IH; lia.
Qed.

Lemma substring0_substring0 (s : string) (m n : nat) :
  m <= n ->
  String.substring 0 m (String.substring 0 n s) = String.substring 0 m s.
Proof.
  revert m n; induction s as [|c s IH]; intros [|m] [|n] Hmn; simpl;
    try lia; auto.
  f_equal; apply IH; lia.
Qed.

Lemma substring0_full (s : string) (n : nat) :
  String.length s <= n -> String.substring 0 n s = s.
Proof.
  revert n; induction s as [|c s IH]; intros [|n] Hn; simpl in *;
    try lia; auto.
  f_equal; apply IH; lia.
Qed.

Lemma get_lt_Some (s : string) (i : nat) :
  i < String.length s -> exists c, String.get i s = Some c.
Proof.
  revert i; induction s as [|c s IH]; intros i Hi; simpl in *; [lia|].
  destruct i as [|i]; [eauto | apply IH; lia].
Qed.

Lemma get_Some_lt (s : string) (i : nat) (c : ascii) :
  String.get i s = Some c -> i < String.length s.
Proof.
  revert i; induction s as [|c' s IH]; intros i Hi; simpl in *;
    [discriminate|].
  destruct i as [|i]; [lia | apply IH in Hi; lia].
Qed.

Lemma str_index_neg_ok (s : string) (k : nat) :
  1 <= k <= String.length s ->
  exists c, String.get (String.length s - k) s = Some c
            /\ Py.str_index_neg s k = Ok c.
Proof.
  intros Hk. unfold Py.str_index_neg.
  destruct (Nat.ltb_spec (String.length s) k) as [Hlt|_]; [lia|].
  destruct (get_lt_Some s (String.length s - k)) as [c Hc]; [lia|].
  exists c; rewrite Hc; auto.
Qed.

Lemma str_index_neg_short (s : string) (k : nat) :
  String.length s < k -> Py.str_index_neg s k = Raise IndexError.
Proof.
  intros Hk. unfold Py.str_index_neg.
  destruct (Nat.ltb_spec (String.length s) k); [reflexivity | lia].
Qed.

(** ** Comment normaliser: [trim] *)

Section TrimFacts.

Variable isalnum : ascii -> bool.

(** What the loop does, for any fuel above the length of the text: it
    never runs out of fuel; it stops on the empty text, raises on a
    text that is a single run, and otherwise stops at the last
    boundary, keeping one character after it. *)
Lemma trim_loop_spec (fuel : nat) (text : string) :
  String.length text < fuel ->
  (text = "" /\ trim_loop isalnum fuel text = Ok "")
  \/ (text <> "" /\ single_run isalnum text (String.length text)
      /\ trim_loop isalnum fuel text = Raise IndexError)
  \/ (exists k, 1 <= k < String.length text /\ boundary_at isalnum text k
                /\ trim_loop isalnum fuel text
                   = Ok (String.substring 0 (S k) text)).
Proof.
  revert text; induction fuel as [|fuel IH]; intros text Hlen; [lia|].
  cbn [trim_loop].
  destruct (Nat.eqb_spec (String.length text) 0) as [H0|H0].
  { left. destruct text; [auto | discriminate]. }
  right.
  assert (Hne : text <> "") by (intros ->; apply H0; reflexivity).
  destruct (str_index_neg_ok text 1) as (a & Ha & ->); [lia|].
  cbn [bind].
  destruct (Nat.le_gt_cases 2 (String.length text)) as [H2|H2].
  2:{ left. rewrite str_index_neg_short by lia. cbn [bind].
      repeat split; auto.
      intros i x y Hi Hx Hy. assert (i = 0) by lia; subst i.
      congruence. }
  destruct (str_index_neg_ok text 2) as (b & Hb & ->); [lia|].
  cbn [bind].
  destruct (Bool.eqb (isalnum a) (isalnum b)) eqn:Hab.
  2:{ right. exists (String.length text - 1). split; [lia|]. split.
      - exists b, a. replace (String.length text - 1 - 1)
          with (String.length text - 2) by lia.
        repeat split; auto.
        intros E. rewrite E, Bool.eqb_reflx in Hab. discriminate.
      - replace (S (String.length text - 1)) with (String.length text)
          by lia.
        rewrite substring0_full; auto. }
  apply Bool.eqb_prop in Hab.
  set (text' := Py.str_drop_last text).
  assert (Hlen' : String.length text' = String.length text - 1).
  { unfold text', Py.str_drop_last. rewrite length_substring0. lia. }
  assert (Hget : forall i, i < String.length text - 1 ->
                           String.get i text' = String.get i text).
  { intros i Hi. unfold text', Py.str_drop_last.
    apply get_substring0; auto. }
  destruct (IH text') as [[E _]|[(_ & Hrun & ->)|(k & Hk & Hb' & ->)]];
    [lia | | | ].
  - exfalso. rewrite E in Hlen'. simpl in Hlen'. lia.
  - left. repeat split; auto.
    intros i x y Hi Hx Hy.
    destruct (Nat.eq_dec i (String.length text - 1)) as [->|Hni].
    + assert (x = a) by congruence; subst x.
      rewrite Hab.
      apply (Hrun (String.length text - 2) b y);
        rewrite ?Hget by lia; auto; lia.
    + apply (Hrun i x y); rewrite ?Hget by lia; auto; lia.
  - right. exists k. split; [lia|]. split.
    + destruct Hb' as (x & y & Hx & Hy & Hxy).
      exists x, y. rewrite !Hget in * by lia. auto.
    + unfold text', Py.str_drop_last.
      rewrite substring0_substring0 by lia. reflexivity.
Qed.

(** [trim] on a body longer than [max_length]: it raises [IndexError]
    when the leading [max_length + 1] characters are a single run, and
    otherwise returns the prefix that ends at the last boundary among
    them.  It never runs out of fuel. *)
Lemma trim_long_spec (text : string) (max_length : nat) :
  1 <= max_length -> max_length < String.length text ->
  (single_run isalnum text (max_length + 1)
   /\ trim isalnum text max_length = Raise IndexError)
  \/ (exists k, 1 <= k <= max_length /\ boundary_at isalnum text k
                /\ trim isalnum text max_length
                   = Ok (String.substring 0 k text)).
Proof.
  intros Hpos Hlong. unfold trim.
  destruct (Nat.leb_spec (String.length text) max_length) as [H|_]; [lia|].
  cbv zeta. unfold Py.str_slice_to.
  set (t := String.substring 0 (max_length + 1) text).
  assert (Hlen : String.length t = max_length + 1).
  { unfold t. rewrite length_substring0. lia. }
  assert (Hget : forall i, i < max_length + 1 ->
                           String.get i t = String.get i text).
  { intros i Hi. apply get_substring0; auto. }
  destruct (trim_loop_spec (S (String.length t)) t)
    as [[E _]|[(_ & Hrun & ->)|(k & Hk & Hb & ->)]]; [lia | | | ].
  - exfalso. rewrite E in Hlen. simpl in Hlen. lia.
  - left. split; auto.
    intros i a b Hi Ha Hb. apply (Hrun i a b);
      rewrite ?Hget by lia; auto; lia.
  - right. exists k. split; [lia|]. split.
    + destruct Hb as (x & y & Hx & Hy & Hxy).
      exists x, y. rewrite !Hget in * by lia. auto.
    + cbn [bind]. f_equal. unfold Py.str_drop_last.
      rewrite length_substring0.
      replace (Nat.min (S k) (String.length t) - 1) with k by lia.
      rewrite substring0_substring0 by lia.
      unfold t. rewrite substring0_substring0 by lia. reflexivity.
Qed.

(** A single run has no boundary, so the two cases of [trim_long_spec]
    exclude each other. *)
Lemma single_run_no_boundary (s : string) (n k : nat) :
  1 <= k < n -> single_run isalnum s n -> ~ boundary_at isalnum s k.
Proof.
  intros Hk Hrun (a & b & Ha & Hb & Hab).
  destruct (get_lt_Some s 0) as [c Hc].
  { apply get_Some_lt in Ha. lia. }
  apply Hab. rewrite (Hrun (k - 1) a c), (Hrun k b c); auto; lia.
Qed.

(** When [trim] returns on a long body, the result is a prefix of the
    body of at most [max_length] characters, and the cut lies between an
    alphanumeric character and one that is not. *)
Lemma trim_long_ok (text r : string) (max_length : nat) :
  1 <= max_length -> max_length < String.length text ->
  trim isalnum text max_length = Ok r ->
  String.length r <= max_length
  /\ r = String.substring 0 (String.length r) text
  /\ boundary_at isalnum text (String.length r).
Proof.
  intros Hpos Hlong Hr.
  destruct (trim_long_spec text max_length Hpos Hlong)
    as [[_ E]|(k & Hk & Hb & E)]; rewrite E in Hr; [discriminate|].
  injection Hr as <-.
  rewrite length_substring0.
  replace (Nat.min k (String.length text)) with k by lia.
  repeat split; auto; lia.
Qed.

(** The fuel that [trim] supplies is never used up, and any larger
    amount gives the same outcome. *)
Lemma trim_never_out_of_fuel (text : string) (max_length : nat) :
  trim isalnum text max_length <> OutOfFuel.
Proof.
  unfold trim.
  destruct (String.length text <=? max_length); [discriminate|].
  cbv zeta.
  destruct (trim_loop_spec
              (S (String.length (Py.str_slice_to text (max_length + 1))))
              (Py.str_slice_to text (max_length + 1)))
    as [[_ ->]|[(_ & _ & ->)|(k & _ & _ & ->)]];
    [lia | discriminate ..].
Qed.

Lemma trim_loop_more_fuel (fuel fuel' : nat) (text : string) :
  String.length text < fuel -> fuel <= fuel' ->
  trim_loop isalnum fuel' text = trim_loop isalnum fuel text.
Proof.
  revert fuel' text; induction fuel as [|fuel IH]; intros fuel' text Hlen Hle;
    [lia|].
  destruct fuel' as [|fuel']; [lia|]. cbn [trim_loop].
  destruct (Nat.eqb_spec (String.length text) 0) as [H0|H0]; [reflexivity|].
  destruct (Py.str_index_neg text 1) as [a| |]; cbn [bind]; try reflexivity.
  destruct (Py.str_index_neg text 2) as [b| |]; cbn [bind]; try reflexivity.
  destruct (Bool.eqb (isalnum a) (isalnum b)); [|reflexivity].
  apply IH; [|lia].
  unfold Py.str_drop_last. rewrite length_substring0. lia.
Qed.

(** X1: On a body longer than [max_length] that [normalise_comment] accepts,
    the comment is flagged as trimmed and its body is a prefix of the raw
    body of at most [max_length] characters, cut at a boundary. *)
Lemma normalise_comment_long_ok (comment : Row) (c : Comment)
  (max_length : nat) :
  1 <= max_length -> max_length < String.length (row_body comment) ->
  normalise_comment isalnum comment max_length = Ok c ->
  body_is_trimmed c = true
  /\ String.length (body c) <= max_length
  /\ body c = String.substring 0 (String.length (body c)) (row_body comment)
  /\ boundary_at isalnum (row_body comment) (String.length (body c)).
Proof.
  intros Hpos Hlong Hc. unfold normalise_comment in Hc.
  destruct (trim isalnum (row_body comment) max_length) as [r| |] eqn:E;
    try discriminate.
  cbn [bind] in Hc. injection Hc as <-. cbn [body body_is_trimmed].
  split; [apply Nat.ltb_lt, Hlong|].
  apply (trim_long_ok (row_body comment) r max_length Hpos Hlong E).
Qed.

End TrimFacts.

(** C10: a body of at most [max_length] characters is returned as it is,
    and the comment built from its row carries that body with
    [body_is_trimmed = false]. *)
Theorem trim_within_limit_is_noop (isalnum : ascii -> bool) (comment : Row)
  (max_length : nat) :
  String.length (row_body comment) <= max_length ->
  trim isalnum (row_body comment) max_length = Ok (row_body comment)
  /\ exists c, normalise_comment isalnum comment max_length = Ok c
               /\ body c = row_body comment
               /\ body_is_trimmed c = false.
Proof.
  intros Hlen.
  assert (E : trim isalnum (row_body comment) max_length
              = Ok (row_body comment)).
  { unfold trim.
    destruct (Nat.leb_spec (String.length (row_body comment)) max_length);
      [reflexivity | lia]. }
  split; [exact E|].
  unfold normalise_comment. rewrite E. cbn [bind].
  eexists; split; [reflexivity|]. cbn [body body_is_trimmed].
  split; [reflexivity|]. apply Nat.ltb_ge; exact Hlen.
Qed.

Lemma trim_within_limit_is_noop_witness :
  String.length (row_body (mkRow "c1" "t3_abc" "t3_abc" "hello world"
                              "x" "r")) <= 127
  /\ trim ascii_isalnum "hello world" 127 = Ok "hello world".
Proof.
  split; [vm_compute; lia|].
  apply (trim_within_limit_is_noop ascii_isalnum
           (mkRow "c1" "t3_abc" "t3_abc" "hello world" "x" "r") 127).
  vm_compute; lia.
Defined.

(** C1: [trim] is not total.  On a body longer than [max_length] whose
    leading [max_length + 1] characters are all on one side (all
    alphanumeric, or all not), the loop shortens the text to one character
    and then reads [text[-2]], which raises [IndexError]: the guard
    [while text] lets a one-character text through. *)
Theorem trim_single_run_raises (isalnum : ascii -> bool) (text : string)
  (max_length : nat) :
  1 <= max_length -> max_length < String.length text ->
  single_run isalnum text (max_length + 1) ->
  trim isalnum text max_length = Raise IndexError.
Proof.
  intros Hpos Hlong Hrun.
  destruct (trim_long_spec isalnum text max_length Hpos Hlong)
    as [[_ E]|(k & Hk & Hb & _)]; [exact E|].
  exfalso. apply (single_run_no_boundary isalnum text (max_length + 1) k);
    auto; lia.
Qed.

Lemma trim_single_run_raises_witness :
  trim ascii_isalnum "aaaa" 2 = Raise IndexError.
Proof.
  apply (trim_single_run_raises ascii_isalnum "aaaa" 2).
  - lia.
  - simpl; lia.
  - intros i a b Hi Ha Hb.
    destruct i as [|[|[|i]]]; simpl in Ha, Hb; try lia; congruence.
Defined.

(** C2: on the row whose body is ["aaaa"], with [max_length = 2], no
    comment is built at all: [trim] raises inside [normalise_comment]
    before [body_is_trimmed] is computed.  The same holds for a body of
    blanks. *)
Theorem normalise_comment_long_word_raises :
  normalise_comment ascii_isalnum
    (mkRow "c1" "t3_abc" "t3_abc" "aaaa" "x" "r") 2 = Raise IndexError
  /\ normalise_comment ascii_isalnum
       (mkRow "c1" "t3_abc" "t3_abc" "    " "x" "r") 2 = Raise IndexError.
Proof. split; reflexivity. Qed.

Lemma normalise_comment_long_ok_witness :
  normalise_comment ascii_isalnum
    (mkRow "c1" "t3_abc" "t3_abc" "aa bb cc" "x" "r") 4
  = Ok (mkComment "c1" "abc" "abc" "aa " true "x" "r")
  /\ String.length "aa " <= 4
  /\ boundary_at ascii_isalnum "aa bb cc" 3.
Proof.
  split; [reflexivity|].
  destruct (normalise_comment_long_ok ascii_isalnum
              (mkRow "c1" "t3_abc" "t3_abc" "aa bb cc" "x" "r")
              (mkComment "c1" "abc" "abc" "aa " true "x" "r") 4)
    as (_ & Hlen & _ & Hb); [lia | simpl; lia | reflexivity |].
  split; [exact Hlen | exact Hb].
Defined.

(** ** Comment normaliser: [_normalise_id] *)

Lemma match_type_tag_length (s rest : string) :
  match_type_tag s = Some rest -> String.length s = 3 + String.length rest.
Proof.
  destruct s as [|c1 [|d [|c3 r]]]; simpl; try discriminate.
  destruct (_ && _); [|discriminate].
  intros [= ->]. reflexivity.
Qed.

Lemma normalise_id_fixed_iff (s : string) :
  _normalise_id s = s <-> match_type_tag s = None.
Proof.
  unfold _normalise_id.
  destruct (match_type_tag s) as [rest|] eqn:E; split; auto;
    try discriminate.
  intros ->. apply match_type_tag_length in E. lia.
Qed.

(** C8, as the code has it: normalising removes one leading tag, so a second
    pass changes nothing exactly when the normalised ID does not begin with
    a tag of its own; ["t1_abc"] and ["t3_abc"] both give ["abc"]. *)
Theorem normalise_id_idempotent_iff (raw_id : string) :
  (_normalise_id (_normalise_id raw_id) = _normalise_id raw_id
   <-> match_type_tag (_normalise_id raw_id) = None)
  /\ _normalise_id "t1_abc" = "abc"
  /\ _normalise_id "t3_abc" = "abc".
Proof.
  split; [apply normalise_id_fixed_iff | split; reflexivity].
Qed.

(** C8, as the spec has it, fails on an ID with two tags in a row. *)
Lemma normalise_id_not_idempotent :
  _normalise_id "t1_t2_abc" = "t2_abc"
  /\ _normalise_id (_normalise_id "t1_t2_abc") = "abc"
  /\ _normalise_id (_normalise_id "t1_t2_abc") <> _normalise_id "t1_t2_abc".
Proof.
  repeat split; try reflexivity. discriminate.
Qed.

(** ** Dictionaries and sets *)

Lemma mem_In (x : string) (l : list string) : Py.mem x l = true <-> In x l.
Proof.
  unfold Py.mem. rewrite existsb_exists. split.
  - intros (y & Hy & E). apply String.eqb_eq in E. subst; auto.
  - intros H. exists x. split; auto. apply String.eqb_refl.
Qed.

Lemma mem_false_In (x : string) (l : list string) :
  Py.mem x l = false <-> ~ In x l.
Proof.
  rewrite <- mem_In. destruct (Py.mem x l); split; congruence.
Qed.

Lemma set_add_In (x y : string) (s : list string) :
  In y (set_add x s) <-> y = x \/ In y s.
Proof.
  unfold set_add. destruct (Py.mem x s) eqn:E.
  - apply mem_In in E. split; [auto | intros [->|]; auto].
  - simpl. split; intros [H|H]; auto.
Qed.

Lemma get_In {V : Type} (d : Dict.t V) (k : string) (v : V) :
  Dict.get d k = Some v -> In (k, v) d.
Proof.
  induction d as [|[k' v'] d IH]; simpl; [discriminate|].
  destruct (String.eqb_spec k k') as [->|_].
  - intros [= ->]. auto.
  - auto.
Qed.

Lemma get_None_keys {V : Type} (d : Dict.t V) (k : string) :
  Dict.get d k = None <-> ~ In k (Dict.keys d).
Proof.
  induction d as [|[k' v'] d IH]; simpl; [tauto|].
  destruct (String.eqb_spec k k') as [->|Hne].
  - split; [discriminate | intros H; exfalso; auto].
  - rewrite IH. split; [intros H [E|H']; [congruence | auto] | tauto].
Qed.

Lemma get_Some_keys {V : Type} (d : Dict.t V) (k : string) (v : V) :
  Dict.get d k = Some v -> In k (Dict.keys d).
Proof.
  intros H. apply get_In in H. apply (in_map fst) in H. exact H.
Qed.

Lemma wf_In_get {V : Type} (d : Dict.t V) (k : string) (v : V) :
  Dict.wf d -> In (k, v) d -> Dict.get d k = Some v.
Proof.
  unfold Dict.wf, Dict.keys.
  induction d as [|[k' v'] d IH]; simpl; intros Hwf Hin; [tauto|].
  inversion Hwf as [|? ? Hnot Hwf']; subst.
  destruct Hin as [[= -> ->]|Hin].
  - rewrite String.eqb_refl. reflexivity.
  - destruct (String.eqb_spec k k') as [->|_]; [|auto].
    exfalso. apply Hnot. apply (in_map fst) in Hin. exact Hin.
Qed.

Lemma keys_In_get {V : Type} (d : Dict.t V) (k : string) :
  In k (Dict.keys d) -> exists v, Dict.get d k = Some v.
Proof.
  intros H. destruct (Dict.get d k) eqn:E; [eauto|].
  apply get_None_keys in E. tauto.
Qed.

Lemma get_setitem {V : Type} (d : Dict.t V) (k k' : string) (v : V) :
  Dict.get (Dict.setitem d k v) k'
  = if String.eqb k' k then Some v else Dict.get d k'.
Proof.
  induction d as [|[k0 v0] d IH]; simpl.
  - reflexivity.
  - destruct (String.eqb_spec k k0) as [->|Hne]; simpl.
    + destruct (String.eqb k' k0); reflexivity.
    + rewrite IH.
      destruct (String.eqb_spec k' k0) as [->|_]; [|reflexivity].
      destruct (String.eqb_spec k0 k); congruence.
Qed.

Lemma keys_setitem {V : Type} (d : Dict.t V) (k : string) (v : V) :
  Dict.keys (Dict.setitem d k v)
  = if Dict.mem d k then Dict.keys d else Dict.keys d ++ [k].
Proof.
  unfold Dict.mem.
  induction d as [|[k0 v0] d IH]; simpl.
  - reflexivity.
  - destruct (String.eqb_spec k k0) as [->|Hne]; simpl.
    + reflexivity.
    + rewrite IH. destruct (Dict.get d k); reflexivity.
Qed.

Lemma setitem_fresh {V : Type} (d : Dict.t V) (k : string) (v : V) :
  Dict.get d k = None -> Dict.setitem d k v = d ++ [(k, v)].
Proof.
  induction d as [|[k0 v0] d IH]; simpl; [reflexivity|].
  destruct (String.eqb_spec k k0) as [->|Hne]; [discriminate|].
  intros H. rewrite IH; auto.
Qed.

Lemma wf_setitem {V : Type} (d : Dict.t V) (k : string) (v : V) :
  Dict.wf d -> Dict.wf (Dict.setitem d k v).
Proof.
  unfold Dict.wf. rewrite keys_setitem. unfold Dict.mem.
  destruct (Dict.get d k) eqn:E; [auto|].
  intros Hwf. apply NoDup_app; auto.
  - repeat constructor. simpl; tauto.
  - intros x Hx [<-|[]]. apply get_None_keys in E. tauto.
Qed.

Lemma get_default_append {V : Type} (d : Dict.t (list V)) (k k' : string)
  (x : V) :
  Dict.get_default (Dict.append d k x) k'
  = if String.eqb k' k then Dict.get_default d k ++ [x]
    else Dict.get_default d k'.
Proof.
  unfold Dict.append, Dict.get_default at 1. rewrite get_setitem.
  destruct (String.eqb k' k); reflexivity.
Qed.

Lemma wf_index_thread (thread : list Comment) : Dict.wf (index_thread thread).
Proof.
  unfold index_thread.
  assert (H : forall d : Dict.t Comment, Dict.wf d ->
    Dict.wf (fold_left (fun d c => Dict.setitem d (id c) c) thread d)).
  { induction thread as [|c thread IH]; simpl; intros d Hd; auto.
    apply IH, wf_setitem, Hd. }
  apply H. constructor.
Qed.

(** ** Python lists *)

Lemma nth_error_last {A : Type} (l : list A) (d : A) :
  l <> [] -> nth_error l (List.length l - 1) = Some (List.last l d).
Proof.
  induction l as [|a l IH]; [congruence|]. intros _.
  destruct l as [|b l]; [reflexivity|].
  change (List.last (a :: b :: l) d) with (List.last (b :: l) d).
  rewrite <- IH by discriminate. simpl. rewrite Nat.sub_0_r. reflexivity.
Qed.

Lemma index_neg_last (path : list string) :
  path <> [] -> Py.index_neg path 1 = Ok (last_id path).
Proof.
  intros Hne. unfold Py.index_neg, last_id.
  destruct (Nat.ltb_spec (List.length path) 1) as [H|_].
  - destruct path; [congruence | simpl in H; lia].
  - rewrite (nth_error_last path "") by exact Hne. reflexivity.
Qed.

Lemma index_neg_ok {A : Type} (l : list A) (k : nat) :
  1 <= k <= List.length l ->
  exists x, nth_error l (List.length l - k) = Some x
            /\ Py.index_neg l k = Ok x.
Proof.
  intros Hk. unfold Py.index_neg.
  destruct (Nat.ltb_spec (List.length l) k) as [H|_]; [lia|].
  destruct (nth_error l (List.length l - k)) as [x|] eqn:E; [eauto|].
  apply nth_error_None in E. lia.
Qed.

Lemma index_neg_short {A : Type} (l : list A) (k : nat) :
  List.length l < k -> Py.index_neg l k = Raise IndexError.
Proof.
  intros Hk. unfold Py.index_neg.
  destruct (Nat.ltb_spec (List.length l) k); [reflexivity | lia].
Qed.

Lemma last_skipn {A : Type} (l : list A) (n : nat) (d : A) :
  n < List.length l -> List.last (skipn n l) d = List.last l d.
Proof.
  revert n; induction l as [|a l IH]; intros n Hn; simpl in Hn; [lia|].
  destruct n as [|n]; [reflexivity|].
  cbn [skipn]. rewrite IH by lia.
  destruct l; [simpl in Hn; lia | reflexivity].
Qed.

Lemma slice_from_neg_length {A : Type} (l : list A) (k : nat) :
  1 <= k -> List.length (Py.slice_from_neg l k) = Nat.min k (List.length l).
Proof.
  intros Hk. unfold Py.slice_from_neg.
  destruct (Nat.eqb_spec k 0); [lia|]. rewrite length_skipn. lia.
Qed.

Lemma slice_from_neg_nonempty {A : Type} (l : list A) (k : nat) :
  l <> [] -> Py.slice_from_neg l k <> [].
Proof.
  intros Hne. unfold Py.slice_from_neg.
  destruct (Nat.eqb_spec k 0); [exact Hne|].
  intros E. apply (f_equal (@List.length A)) in E.
  rewrite length_skipn in E. change (List.length (@nil A)) with 0 in E.
  destruct l; [congruence | cbn [List.length] in E; lia].
Qed.

Lemma slice_from_neg_last (l : list string) (k : nat) :
  l <> [] -> last_id (Py.slice_from_neg l k) = last_id l.
Proof.
  intros Hne. unfold Py.slice_from_neg, last_id.
  destruct (Nat.eqb_spec k 0); [reflexivity|].
  apply last_skipn. destruct l; [congruence | cbn [List.length]; lia].
Qed.

Lemma slice_from_neg_Forall {A : Type} (P : A -> Prop) (l : list A)
  (k : nat) : Forall P l -> Forall P (Py.slice_from_neg l k).
Proof.
  intros H. unfold Py.slice_from_neg.
  destruct (k =? 0); [exact H|].
  rewrite <- (firstn_skipn (List.length l - k) l) in H.
  apply Forall_app in H. tauto.
Qed.

(** ** Reply chains *)

Section Chains.

Variable d : Dict.t Comment.

Lemma reply_chain_tail (a : string) (l : list string) :
  reply_chain d (a :: l) = true -> reply_chain d l = true.
Proof.
  destruct l as [|b l]; [reflexivity|].
  cbn [reply_chain]. intros H. apply andb_prop in H. tauto.
Qed.

Lemma reply_chain_skipn (l : list string) (n : nat) :
  reply_chain d l = true -> reply_chain d (skipn n l) = true.
Proof.
  revert l; induction n as [|n IH]; intros l H; [exact H|].
  destruct l as [|a l]; [reflexivity|].
  cbn [skipn]. apply IH. apply (reply_chain_tail a). exact H.
Qed.

Lemma reply_chain_slice (l : list string) (k : nat) :
  reply_chain d l = true -> reply_chain d (Py.slice_from_neg l k) = true.
Proof.
  intros H. unfold Py.slice_from_neg.
  destruct (k =? 0); [exact H | apply reply_chain_skipn, H].
Qed.

Lemma reply_chain_snoc (l : list string) (x : string) :
  l <> [] -> reply_chain d l = true ->
  direct_reply d (last_id l) x = true ->
  reply_chain d (l ++ [x]) = true.
Proof.
  unfold last_id.
  induction l as [|a l IH]; [congruence|]. intros _ Hc Hx.
  destruct l as [|b l].
  - cbn in *. rewrite Hx. reflexivity.
  - change ((a :: b :: l) ++ [x]) with (a :: b :: (l ++ [x])).
    cbn [reply_chain] in *. apply andb_prop in Hc. destruct Hc as [Hab Hc].
    rewrite Hab. cbn [andb].
    apply (IH ltac:(discriminate) Hc Hx).
Qed.

Lemma direct_reply_key (p x : string) :
  direct_reply d p x = true -> In x (Dict.keys d).
Proof.
  unfold direct_reply. destruct (Dict.get d x) eqn:E; [|discriminate].
  intros _. eapply get_Some_keys, E.
Qed.

(** The path appended to [new_paths] for a child of a work-list path. *)
Lemma new_path_ok (parent_depth : nat) (path : list string)
  (child_id : string) :
  path_ok d parent_depth path ->
  direct_reply d (last_id path) child_id = true ->
  yielded_ok d parent_depth
    (Py.slice_from_neg path parent_depth ++ [child_id]).
Proof.
  intros (Hne & Hc & Hk & Hlen) Hx.
  pose proof (slice_from_neg_nonempty path parent_depth Hne) as Hne'.
  assert (H2 : 2 <= List.length
                      (Py.slice_from_neg path parent_depth ++ [child_id])).
  { rewrite length_app. simpl.
    destruct (Py.slice_from_neg path parent_depth);
      [congruence | simpl; lia]. }
  split; [exact H2|]. split; [|split; [|split]].
  - intros E. rewrite E in H2. simpl in H2. lia.
  - apply reply_chain_snoc; auto.
    + apply reply_chain_slice, Hc.
    + rewrite slice_from_neg_last; auto.
  - apply Forall_app. split.
    + apply slice_from_neg_Forall, Hk.
    + repeat constructor. eapply direct_reply_key, Hx.
  - intros Hpd. rewrite length_app, slice_from_neg_length by exact Hpd.
    simpl. lia.
Qed.

End Chains.

(** ** Path builder: the first loop *)

Lemma root_ids_cons (d : Dict.t Comment) (k : string) (c : Comment)
  (items : list (string * Comment)) :
  root_ids d ((k, c) :: items)
  = if negb (Dict.mem d (parent_id c)) then k :: root_ids d items
    else root_ids d items.
Proof.
  unfold root_ids. cbn [filter]. unfold is_root at 1. cbn [snd].
  destruct (negb (Dict.mem d (parent_id c))); reflexivity.
Qed.

Lemma build_index_fold (d : Dict.t Comment) (items : list (string * Comment))
  (paths0 : list (list string)) (seen0 : list string)
  (ch0 : Dict.t (list string)) :
  exists seen1 ch1,
    fold_left (index_step d) items (paths0, seen0, ch0)
    = (paths0 ++ map (fun k => [k]) (root_ids d items), seen1, ch1)
    /\ (forall x, In x seen1 <-> In x seen0 \/ In x (root_ids d items))
    /\ (forall p x, In x (Dict.get_default ch1 p) ->
          In x (Dict.get_default ch0 p)
          \/ exists c, In (x, c) items /\ parent_id c = p).
Proof.
  revert paths0 seen0 ch0.
  induction items as [|[k c] items IH]; intros paths0 seen0 ch0.
  - exists seen0, ch0. cbn. rewrite app_nil_r. repeat split; tauto.
  - cbn [fold_left index_step]. rewrite root_ids_cons.
    destruct (negb (Dict.mem d (parent_id c))) eqn:Hroot.
    + destruct (IH (paths0 ++ [[k]]) (set_add k seen0)
                  (Dict.append ch0 (parent_id c) k))
        as (seen1 & ch1 & E & Hseen & Hch).
      exists seen1, ch1. rewrite E. split; [|split].
      * cbn [map]. rewrite <- app_assoc. reflexivity.
      * intros x. rewrite Hseen, set_add_In. cbn [In].
        intuition auto.
      * intros p x Hx. destruct (Hch p x Hx) as [H|(c' & Hin & Hp)].
        -- rewrite get_default_append in H.
           destruct (String.eqb_spec p (parent_id c)) as [->|_]; auto.
           apply in_app_or in H. destruct H as [H|[<-|[]]]; auto.
           right. exists c. split; [left|]; reflexivity.
        -- right. exists c'. split; [right|]; auto.
    + destruct (IH paths0 seen0 (Dict.append ch0 (parent_id c) k))
        as (seen1 & ch1 & E & Hseen & Hch).
      exists seen1, ch1. rewrite E. split; [|split]; auto.
      intros p x Hx. destruct (Hch p x Hx) as [H|(c' & Hin & Hp)].
      * rewrite get_default_append in H.
        destruct (String.eqb_spec p (parent_id c)) as [->|_]; auto.
        apply in_app_or in H. destruct H as [H|[<-|[]]]; auto.
        right. exists c. split; [left|]; reflexivity.
      * right. exists c'. split; [right|]; auto.
Qed.

Lemma root_ids_keys (d : Dict.t Comment) (items : list (string * Comment))
  (x : string) : In x (root_ids d items) -> In x (map fst items).
Proof.
  unfold root_ids. rewrite !in_map_iff.
  intros (kc & E & H). apply filter_In in H. exists kc. tauto.
Qed.

(** The state after the first loop: one singleton path per root, in dict
    order; the roots are the seen IDs; the reverse index holds direct
    replies only. *)
Lemma build_index_spec (d : Dict.t Comment) :
  Dict.wf d ->
  exists seen ch,
    build_index d = (map (fun k => [k]) (root_ids d d), seen, ch)
    /\ (forall x, In x seen <-> In x (root_ids d d))
    /\ children_ok d ch.
Proof.
  intros Hwf. unfold build_index.
  destruct (build_index_fold d d [] [] []) as (seen & ch & E & Hseen & Hch).
  exists seen, ch. split; [exact E|]. split.
  - intros x. rewrite Hseen. cbn. tauto.
  - intros p x Hx. destruct (Hch p x Hx) as [[]|(c & Hin & Hp)].
    unfold direct_reply. rewrite (wf_In_get d x c Hwf Hin).
    subst p. apply String.eqb_refl.
Qed.

Lemma root_paths_ok (d : Dict.t Comment) (parent_depth : nat) :
  Forall (path_ok d parent_depth) (map (fun k => [k]) (root_ids d d)).
Proof.
  apply Forall_forall. intros path Hin.
  apply in_map_iff in Hin. destruct Hin as (k & <- & Hk).
  split; [discriminate|]. split; [reflexivity|]. split.
  - repeat constructor. apply root_ids_keys in Hk. exact Hk.
  - simpl. lia.
Qed.

(** ** Path builder: one round *)

Section Round.

Variable d : Dict.t Comment.
Variable parent_depth : nat.

Lemma extend_path_spec (path children : list string) :
  path_ok d parent_depth path ->
  (forall x, In x children -> direct_reply d (last_id path) x = true) ->
  forall seen new_paths seen',
    extend_path parent_depth path children seen = (new_paths, seen') ->
    Forall (yielded_ok d parent_depth) new_paths
    /\ (forall x, In x seen' <-> In x seen \/ In x (map last_id new_paths))
    /\ NoDup (map last_id new_paths)
    /\ (forall x, In x (map last_id new_paths) -> ~ In x seen).
Proof.
  intros Hpath.
  induction children as [|c children IH]; intros Hch seen nps seen' E.
  - cbn in E. injection E as <- <-. cbn.
    repeat split; try constructor; tauto.
  - cbn [extend_path] in E.
    destruct (Py.mem c seen) eqn:Hmem.
    + apply IH in E; auto. intros x Hx. apply Hch. right; exact Hx.
    + destruct (extend_path parent_depth path children (set_add c seen))
        as [nps0 seen0] eqn:E0.
      injection E as <- <-.
      apply IH in E0; [|intros x Hx; apply Hch; right; exact Hx].
      destruct E0 as (Hy & Hseen & Hnd & Hfresh).
      apply mem_false_In in Hmem.
      assert (Hlast : last_id (Py.slice_from_neg path parent_depth ++ [c])
                      = c) by apply last_last.
      cbn [map]. rewrite Hlast. split; [|split; [|split]].
      * constructor; auto. apply new_path_ok; auto.
        apply Hch. left; reflexivity.
      * intros x. rewrite Hseen, set_add_In. cbn [In]. intuition auto.
      * constructor; auto. intros Hin. apply Hfresh in Hin.
        apply Hin. apply set_add_In. left; reflexivity.
      * intros x [<-|Hin]; auto.
        apply Hfresh in Hin. intros Hs. apply Hin.
        apply set_add_In. right; exact Hs.
Qed.

Variable id_to_children : Dict.t (list string).
Hypothesis Hchildren : children_ok d id_to_children.

(** A round never raises, yields well-formed paths with distinct, so
    far unseen last elements, and adds exactly these to [seen_ids]. *)
Lemma extend_paths_spec (paths : list (list string)) :
  Forall (path_ok d parent_depth) paths ->
  forall seen, exists new_paths seen',
    extend_paths parent_depth id_to_children paths seen
    = Ok (new_paths, seen')
    /\ Forall (yielded_ok d parent_depth) new_paths
    /\ (forall x, In x seen' <-> In x seen \/ In x (map last_id new_paths))
    /\ NoDup (map last_id new_paths)
    /\ (forall x, In x (map last_id new_paths) -> ~ In x seen).
Proof.
  induction paths as [|path paths IH]; intros Hall seen.
  - exists [], seen. cbn. repeat split; try constructor; tauto.
  - inversion Hall as [|? ? Hpath Hall']; subst.
    cbn [extend_paths].
    rewrite index_neg_last by apply Hpath. cbn [bind].
    destruct (extend_path parent_depth path
                (Dict.get_default id_to_children (last_id path)) seen)
      as [nps1 seen1] eqn:E1.
    apply extend_path_spec in E1; auto.
    destruct E1 as (Hy1 & Hs1 & Hnd1 & Hf1).
    destruct (IH Hall' seen1) as (nps2 & seen2 & E2 & Hy2 & Hs2 & Hnd2 & Hf2).
    rewrite E2. cbn [bind].
    exists (nps1 ++ nps2), seen2. split; [reflexivity|].
    rewrite map_app. split; [|split; [|split]].
    + apply Forall_app; auto.
    + intros x. rewrite Hs2, Hs1, in_app_iff. tauto.
    + apply NoDup_app; auto.
      intros x Hx1 Hx2. apply (Hf2 x Hx2). apply Hs1. right; exact Hx1.
    + intros x Hx Hs. apply in_app_or in Hx. destruct Hx as [Hx|Hx].
      * apply (Hf1 x Hx Hs).
      * apply (Hf2 x Hx). apply Hs1. left; exact Hs.
Qed.

End Round.

(** ** Path builder: termination of the [while] loop *)

Lemma filter_length_le {A : Type} (f g : A -> bool) (l : list A) :
  (forall x, In x l -> f x = true -> g x = true) ->
  List.length (filter f l) <= List.length (filter g l).
Proof.
  induction l as [|a l IH]; intros H; [reflexivity|].
  assert (IH' := IH (fun x Hx => H x (or_intror Hx))).
  cbn [filter]. destruct (f a) eqn:Hf.
  - rewrite (H a (or_introl eq_refl) Hf). simpl. lia.
  - destruct (g a); simpl; lia.
Qed.

Lemma filter_length_lt {A : Type} (f g : A -> bool) (l : list A) (y : A) :
  (forall x, In x l -> f x = true -> g x = true) ->
  In y l -> f y = false -> g y = true ->
  List.length (filter f l) < List.length (filter g l).
Proof.
  induction l as [|a l IH]; intros H Hy Hf Hg; [destruct Hy|].
  cbn [filter]. destruct Hy as [->|Hy].
  - rewrite Hf, Hg. simpl.
    pose proof (filter_length_le f g l (fun x Hx => H x (or_intror Hx))).
    lia.
  - assert (IH' := IH (fun x Hx => H x (or_intror Hx)) Hy Hf Hg).
    destruct (f a) eqn:Hfa.
    + rewrite (H a (or_introl eq_refl) Hfa). simpl. lia.
    + destruct (g a); simpl; lia.
Qed.

Lemma filter_length_le_full {A : Type} (f : A -> bool) (l : list A) :
  List.length (filter f l) <= List.length l.
Proof.
  induction l as [|a l IH]; [reflexivity|].
  cbn [filter]. destruct (f a); simpl; lia.
Qed.

Lemma unseen_count_le_length (d : Dict.t Comment) (seen : list string) :
  unseen_count d seen <= List.length d.
Proof.
  unfold unseen_count, Dict.keys.
  etransitivity; [apply filter_length_le_full | rewrite length_map; auto].
Qed.

Lemma unseen_count_decreases (d : Dict.t Comment) (seen seen' : list string)
  (y : string) :
  (forall x, In x seen -> In x seen') ->
  In y (Dict.keys d) -> ~ In y seen -> In y seen' ->
  unseen_count d seen' < unseen_count d seen.
Proof.
  intros Hsub Hkey Hnew Hin. unfold unseen_count.
  apply (filter_length_lt _ _ _ y); auto.
  - intros x _ Hx. apply negb_true_iff in Hx. apply negb_true_iff.
    apply mem_false_In. apply mem_false_In in Hx. auto.
  - apply negb_false_iff, mem_In, Hin.
  - apply negb_true_iff, mem_false_In, Hnew.
Qed.

Lemma last_id_In (path : list string) : path <> [] -> In (last_id path) path.
Proof.
  intros Hne. destruct (exists_last Hne) as (l & x & ->).
  unfold last_id. rewrite last_last. apply in_or_app. right; left; reflexivity.
Qed.

Lemma paths_loop_nil (fuel parent_depth : nat) (ch : Dict.t (list string))
  (seen : list string) : paths_loop fuel parent_depth ch [] seen = Ok [].
Proof. destruct fuel; reflexivity. Qed.

Section Loop.

Variable d : Dict.t Comment.
Variable parent_depth : nat.
Variable id_to_children : Dict.t (list string).
Hypothesis Hchildren : children_ok d id_to_children.

(** With more fuel than there are unseen keys the loop ends, without
    raising.  What it yields is well formed, and the last elements of
    the yielded paths are distinct and were unseen at the start. *)
Lemma paths_loop_spec (fuel : nat) :
  forall paths seen,
    Forall (path_ok d parent_depth) paths ->
    unseen_count d seen < fuel ->
    exists out,
      paths_loop fuel parent_depth id_to_children paths seen = Ok out
      /\ Forall (yielded_ok d parent_depth) out
      /\ NoDup (map last_id out)
      /\ (forall x, In x (map last_id out) -> ~ In x seen).
Proof.
  induction fuel as [|fuel IH]; intros paths seen Hall Hfuel; [lia|].
  destruct paths as [|path paths].
  { exists []. cbn. repeat split; try constructor; tauto. }
  cbn [paths_loop].
  destruct (extend_paths_spec d parent_depth id_to_children Hchildren
              (path :: paths) Hall seen)
    as (nps & seen' & E & Hy & Hs & Hnd & Hf).
  rewrite E. cbn [bind].
  assert (Hall' : Forall (path_ok d parent_depth) nps).
  { eapply Forall_impl; [|exact Hy]. intros p Hp. apply Hp. }
  assert (Hrest : exists rest,
    paths_loop fuel parent_depth id_to_children nps seen' = Ok rest
    /\ Forall (yielded_ok d parent_depth) rest
    /\ NoDup (map last_id rest)
    /\ (forall x, In x (map last_id rest) -> ~ In x seen')).
  { destruct nps as [|p0 nps0].
    - exists []. rewrite paths_loop_nil.
      repeat split; try constructor. intros x [].
    - apply IH; auto.
      assert (Hp0 : path_ok d parent_depth p0).
      { inversion Hall'; auto. }
      destruct Hp0 as (Hne & _ & Hkeys & _).
      assert (unseen_count d seen' < unseen_count d seen); [|lia].
      apply (unseen_count_decreases d seen seen' (last_id p0)).
      + intros x Hx. apply Hs. left; exact Hx.
      + rewrite Forall_forall in Hkeys. apply Hkeys, last_id_In, Hne.
      + apply Hf. left; reflexivity.
      + apply Hs. right. left; reflexivity. }
  destruct Hrest as (rest & Er & Hyr & Hndr & Hfr).
  rewrite Er. cbn [bind]. exists (nps ++ rest).
  split; [reflexivity|]. rewrite map_app. split; [|split].
  - apply Forall_app; auto.
  - apply NoDup_app; auto.
    intros x Hx1 Hx2. apply (Hfr x Hx2). apply Hs. right; exact Hx1.
  - intros x Hx Hseen. apply in_app_or in Hx. destruct Hx as [Hx|Hx].
    + apply (Hf x Hx Hseen).
    + apply (Hfr x Hx). apply Hs. left; exact Hseen.
Qed.

End Loop.

(** Fuel beyond what a run needs does not change what it yields. *)
Lemma paths_loop_more_fuel (parent_depth : nat)
  (id_to_children : Dict.t (list string)) (fuel : nat) :
  forall fuel' paths seen out,
    fuel <= fuel' ->
    paths_loop fuel parent_depth id_to_children paths seen = Ok out ->
    paths_loop fuel' parent_depth id_to_children paths seen = Ok out.
Proof.
  induction fuel as [|fuel IH]; intros fuel' paths seen out Hle E.
  - destruct paths; [|discriminate].
    rewrite paths_loop_nil. exact E.
  - destruct fuel' as [|fuel']; [lia|].
    destruct paths as [|path paths]; [exact E|].
    cbn [paths_loop] in *.
    destruct (extend_paths parent_depth id_to_children (path :: paths) seen)
      as [[nps seen']| |]; cbn [bind] in *; try discriminate.
    destruct (paths_loop fuel parent_depth id_to_children nps seen')
      as [rest| |] eqn:Er; cbn [bind] in E; try discriminate.
    rewrite (IH fuel' nps seen' rest) by (auto; lia). exact E.
Qed.

(** ** Path builder: the generator *)

(** [linear_paths] returns on every dict, for every [parent_depth].  What
    it yields is well formed; no two yielded paths end in the same
    comment, and none ends in a root. *)
Lemma linear_paths_spec (d : Dict.t Comment) (parent_depth : nat) :
  Dict.wf d ->
  exists out,
    linear_paths d parent_depth = Ok out
    /\ Forall (yielded_ok d parent_depth) out
    /\ NoDup (map last_id out)
    /\ (forall x, In x (map last_id out) -> ~ In x (root_ids d d)).
Proof.
  intros Hwf. unfold linear_paths.
  destruct (build_index_spec d Hwf) as (seen & ch & -> & Hseen & Hch).
  destruct (paths_loop_spec d parent_depth ch Hch (S (List.length d))
              (map (fun k => [k]) (root_ids d d)) seen)
    as (out & E & Hy & Hnd & Hf).
  - apply root_paths_ok.
  - pose proof (unseen_count_le_length d seen). lia.
  - exists out. repeat split; auto.
    intros x Hx Hr. apply (Hf x Hx). apply Hseen, Hr.
Qed.

Lemma reply_chain_nth (d : Dict.t Comment) (path : list string) :
  reply_chain d path = true ->
  forall i a b,
    nth_error path i = Some a -> nth_error path (S i) = Some b ->
    exists c, Dict.get d b = Some c /\ parent_id c = a.
Proof.
  induction path as [|x path IH]; intros Hc i a b Ha Hb.
  - destruct i; discriminate.
  - destruct i as [|i].
    + destruct path as [|y path]; [discriminate|].
      cbn in Ha, Hb. injection Ha as ->. injection Hb as ->.
      cbn [reply_chain] in Hc. apply andb_prop in Hc. destruct Hc as [Hc _].
      unfold direct_reply in Hc.
      destruct (Dict.get d b) as [c|]; [|discriminate].
      exists c. split; [reflexivity|]. apply String.eqb_eq, Hc.
    + apply (IH (reply_chain_tail d x path Hc) i a b); assumption.
Qed.

Lemma NoDup_map_fst_filter {A B : Type} (f : A * B -> bool)
  (l : list (A * B)) :
  NoDup (map fst l) -> NoDup (map fst (filter f l)).
Proof.
  induction l as [|a l IH]; intros H; [constructor|].
  inversion H as [|? ? Hnot H']; subst. cbn [filter].
  destruct (f a); auto. cbn [map]. constructor; auto.
  intros Hin. apply Hnot. apply in_map_iff in Hin.
  destruct Hin as (x & E & Hx). apply filter_In in Hx.
  apply in_map_iff. exists x. tauto.
Qed.

Lemma wf_chain_thread : Dict.wf (index_thread chain_thread).
Proof. apply wf_index_thread. Qed.

(** C4: for a positive [parent_depth], [linear_paths] returns, every path
    it yields has between 2 and [parent_depth + 1] elements, and each
    element after the first is a key of the dict whose comment has the
    element before it as [parent_id]. *)
Theorem linear_paths_window (d : Dict.t Comment) (parent_depth : nat) :
  Dict.wf d -> 1 <= parent_depth ->
  exists out,
    linear_paths d parent_depth = Ok out
    /\ forall path, In path out ->
         2 <= List.length path <= parent_depth + 1
         /\ forall i a b,
              nth_error path i = Some a -> nth_error path (S i) = Some b ->
              exists c, Dict.get d b = Some c /\ parent_id c = a.
Proof.
  intros Hwf Hpd.
  destruct (linear_paths_spec d parent_depth Hwf) as (out & E & Hy & _).
  exists out. split; [exact E|]. intros path Hin.
  rewrite Forall_forall in Hy.
  destruct (Hy path Hin) as (H2 & _ & Hc & _ & Hlen).
  split; [split; auto|]. apply reply_chain_nth, Hc.
Qed.

Lemma linear_paths_window_witness :
  Dict.wf (index_thread chain_thread) /\ 1 <= 2
  /\ exists out,
       linear_paths (index_thread chain_thread) 2 = Ok out
       /\ forall path, In path out ->
            2 <= List.length path <= 2 + 1
            /\ forall i a b,
                 nth_error path i = Some a -> nth_error path (S i) = Some b ->
                 exists c, Dict.get (index_thread chain_thread) b = Some c
                           /\ parent_id c = a.
Proof.
  split; [apply wf_chain_thread|]. split; [lia|].
  apply (linear_paths_window (index_thread chain_thread) 2).
  - apply wf_chain_thread.
  - lia.
Defined.

(** C5: [linear_paths] returns on every dict and every [parent_depth],
    cyclic parent references included, and raises nothing.  Each comment
    is visited at most once: the roots that seed the work-list and the
    last elements of the yielded paths are pairwise distinct, so there are
    at most as many paths as comments. *)
Theorem linear_paths_terminates (d : Dict.t Comment) (parent_depth : nat) :
  Dict.wf d ->
  exists out,
    linear_paths d parent_depth = Ok out
    /\ NoDup (root_ids d d ++ map last_id out)
    /\ List.length out <= List.length d.
Proof.
  intros Hwf.
  destruct (linear_paths_spec d parent_depth Hwf) as (out & E & Hy & Hnd & Hr).
  exists out. split; [exact E|]. split.
  - apply NoDup_app; auto.
    + apply NoDup_map_fst_filter, Hwf.
    + intros x Hx Hl. apply (Hr x Hl Hx).
  - rewrite <- (length_map last_id out), <- (length_map fst d).
    apply NoDup_incl_length; [exact Hnd|].
    intros x Hx. apply in_map_iff in Hx. destruct Hx as (path & <- & Hin).
    rewrite Forall_forall in Hy.
    destruct (Hy path Hin) as (_ & Hne & _ & Hk & _).
    rewrite Forall_forall in Hk. apply Hk, last_id_In, Hne.
Qed.

Lemma linear_paths_terminates_witness :
  Dict.wf (index_thread cyclic_thread)
  /\ exists out,
       linear_paths (index_thread cyclic_thread) 10 = Ok out
       /\ NoDup (root_ids (index_thread cyclic_thread)
                   (index_thread cyclic_thread) ++ map last_id out)
       /\ List.length out <= List.length (index_thread cyclic_thread).
Proof.
  split; [apply wf_index_thread|].
  apply (linear_paths_terminates (index_thread cyclic_thread) 10).
  apply wf_index_thread.
Defined.

(** On the cyclic thread the comments of the cycles are never reached. *)
Example linear_paths_cyclic_thread :
  linear_paths (index_thread cyclic_thread) 10 = Ok [["R"; "X"]].
Proof. reflexivity. Qed.

(** ** Path builder: the chain A -> B -> C -> D *)

(** C3, as the code has it: for the four comments of the chain, whatever
    their other fields and in whatever order they arrive, a
    [parent_depth] of 2 yields [A,B], [A,B,C] and [B,C,D]: the window
    keeps two ancestors and adds the child.  Each path has at most 3
    elements and each of B, C, D is the last element of exactly one. *)
Theorem linear_paths_chain (cA cB cC cD : Comment) (thread : list Comment) :
  id cA = "A" -> parent_id cA = "abc" ->
  id cB = "B" -> parent_id cB = "A" ->
  id cC = "C" -> parent_id cC = "B" ->
  id cD = "D" -> parent_id cD = "C" ->
  Permutation thread [cA; cB; cC; cD] ->
  exists out,
    linear_paths (index_thread thread) 2 = Ok out
    /\ out = [["A"; "B"]; ["A"; "B"; "C"]; ["B"; "C"; "D"]]
    /\ Forall (fun path => List.length path <= 3) out
    /\ Forall (fun x => count_occ string_dec (map last_id out) x = 1)
         ["B"; "C"; "D"].
Proof.
  intros HA HpA HB HpB HC HpC HD HpD Hperm.
  exists [["A"; "B"]; ["A"; "B"; "C"]; ["B"; "C"; "D"]].
  split; [|split; [reflexivity|split]].
  2:{ repeat constructor. }
  2:{ repeat constructor. }
  pose proof (Permutation_length Hperm) as Hlen.
  destruct thread as [|x1 [|x2 [|x3 [|x4 [|x5 thread]]]]];
    try discriminate Hlen.
  assert (IA : In cA [x1; x2; x3; x4]).
  { eapply Permutation_in; [apply Permutation_sym, Hperm | simpl; auto]. }
  assert (IB : In cB [x1; x2; x3; x4]).
  { eapply Permutation_in; [apply Permutation_sym, Hperm | simpl; auto]. }
  assert (IC : In cC [x1; x2; x3; x4]).
  { eapply Permutation_in; [apply Permutation_sym, Hperm | simpl; auto]. }
  assert (ID : In cD [x1; x2; x3; x4]).
  { eapply Permutation_in; [apply Permutation_sym, Hperm | simpl; auto]. }
  clear Hperm Hlen.
  destruct cA, cB, cC, cD. cbn in HA, HpA, HB, HpB, HC, HpC, HD, HpD.
  subst.
  destruct IA as [E|[E|[E|[E|[]]]]]; subst;
    destruct IB as [E|[E|[E|[E|[]]]]]; try discriminate E; subst;
    destruct IC as [E|[E|[E|[E|[]]]]]; try discriminate E; subst;
    destruct ID as [E|[E|[E|[E|[]]]]]; try discriminate E; subst;
    reflexivity.
Qed.

Lemma linear_paths_chain_witness :
  linear_paths (index_thread chain_thread) 2
  = Ok [["A"; "B"]; ["A"; "B"; "C"]; ["B"; "C"; "D"]].
Proof.
  destruct (linear_paths_chain
              (sample_comment "A" "abc" "the first comment")
              (sample_comment "B" "A" "a reply to the first")
              (sample_comment "C" "B" "[deleted]")
              (sample_comment "D" "C" "a reply to the deleted")
              chain_thread
              eq_refl eq_refl eq_refl eq_refl eq_refl eq_refl eq_refl eq_refl
              (Permutation_refl _))
    as (out & E & -> & _).
  exact E.
Defined.

(** C3, as the spec has it, fails: the paths are not [A,B], [B,C],
    [C,D]. *)
Lemma linear_paths_chain_not_pairs :
  linear_paths (index_thread chain_thread) 2
  = Ok [["A"; "B"]; ["A"; "B"; "C"]; ["B"; "C"; "D"]]
  /\ linear_paths (index_thread chain_thread) 2
     <> Ok [["A"; "B"]; ["B"; "C"]; ["C"; "D"]].
Proof. split; [reflexivity | discriminate]. Qed.

(** ** Split assigner *)

Lemma Qltb_spec (x y : Q) : Qltb x y = true <-> (x < y)%Q.
Proof. unfold Qltb, Qlt. apply Z.ltb_lt. Qed.

(** C6: with 4096 buckets the split value of an example is
    [(1 + md5(thread_id) mod 4096) / 4096], which lies in (0, 1]; the tag
    is "train" when that value is below [train_split] and "test"
    otherwise; and any other example with the same [thread_id] gets the
    same tag. *)
Theorem process_split_by_thread_id (md5 : bytes -> N) (train_split : Q)
  (example : Example) (thread_id : bytes) :
  Dict.get_default example "thread_id" = [thread_id] ->
  let v := (Z.of_N (1 + md5 thread_id mod 4096) # 4096)%Q in
  _split_value md5 default_num_buckets thread_id = Ok v
  /\ (0 < v)%Q /\ (v <= 1)%Q
  /\ exists tag,
       process md5 train_split default_num_buckets example
       = Ok (tag, example)
       /\ ((v < train_split)%Q -> tag = "train")
       /\ (~ (v < train_split)%Q -> tag = "test")
       /\ forall example',
            Dict.get_default example' "thread_id" = [thread_id] ->
            process md5 train_split default_num_buckets example'
            = Ok (tag, example').
Proof.
  intros Hid v.
  assert (Hv : _split_value md5 default_num_buckets thread_id = Ok v)
    by reflexivity.
  split; [exact Hv|].
  assert (Hmod : (md5 thread_id mod 4096 < 4096)%N)
    by (apply N.mod_lt; discriminate).
  split; [|split].
  - unfold v, Qlt. cbn [Qnum Qden].
    generalize dependent (md5 thread_id mod 4096)%N. intros; lia.
  - unfold v, Qle. cbn [Qnum Qden].
    generalize dependent (md5 thread_id mod 4096)%N. intros; lia.
  - exists (if Qltb v train_split then TRAIN_TAG else TEST_TAG).
    unfold process. rewrite Hid, Hv. cbn [bind].
    split; [reflexivity|]. split; [|split].
    + intros Hlt. apply Qltb_spec in Hlt. rewrite Hlt. reflexivity.
    + intros Hge. destruct (Qltb v train_split) eqn:E; [|reflexivity].
      apply Qltb_spec in E. tauto.
    + intros example' Hid'. rewrite Hid', Hv. reflexivity.
Qed.

Lemma process_split_by_thread_id_witness :
  Dict.get_default [("thread_id", [list_byte_of_string "abc"])] "thread_id"
  = [list_byte_of_string "abc"]
  /\ process sample_digest (9 # 10)
       default_num_buckets [("thread_id", [list_byte_of_string "abc"])]
     = Ok ("train", [("thread_id", [list_byte_of_string "abc"])]).
Proof.
  split; [reflexivity|].
  destruct (process_split_by_thread_id sample_digest (9 # 10)
              [("thread_id", [list_byte_of_string "abc"])]
              (list_byte_of_string "abc") eq_refl)
    as (_ & _ & _ & tag & E & Htrain & _ & _).
  rewrite E. rewrite Htrain; reflexivity.
Defined.

(** ** Example generator *)

Lemma format_nat_inj (i j : nat) : format_nat i = format_nat j -> i = j.
Proof.
  unfold format_nat. intros H.
  apply DecimalNat.Unsigned.to_uint_inj.
  apply (f_equal NilEmpty.uint_of_string) in H.
  rewrite !NilEmpty.usu in H. congruence.
Qed.

Lemma context_name_eqb (i j : nat) :
  String.eqb ("context/" ++ format_nat i) ("context/" ++ format_nat j)
  = Nat.eqb i j.
Proof.
  destruct (Nat.eqb_spec i j) as [->|Hne].
  - apply String.eqb_refl.
  - apply String.eqb_neq. intros E. apply Hne, format_nat_inj.
    cbn in E. congruence.
Qed.

Lemma get_app {V : Type} (d1 d2 : Dict.t V) (k : string) :
  Dict.get (d1 ++ d2) k
  = match Dict.get d1 k with Some v => Some v | None => Dict.get d2 k end.
Proof.
  induction d1 as [|[k' v'] d1 IH]; cbn; [reflexivity|].
  destruct (String.eqb k k'); auto.
Qed.

Lemma should_skip_iff (comment : Comment) (min_length : nat) :
  _should_skip comment min_length = true
  <-> body_is_trimmed comment = true
      \/ body comment = "[deleted]" \/ body comment = "[removed]"
      \/ String.length (body comment) < min_length.
Proof.
  unfold _should_skip.
  destruct (body_is_trimmed comment); [tauto|].
  destruct (Py.mem (body comment) ["[deleted]"; "[removed]"]) eqn:Hm.
  - apply mem_In in Hm. cbn in Hm.
    split; auto. intros _. right. intuition auto.
  - apply mem_false_In in Hm. cbn in Hm.
    destruct (Nat.ltb_spec (String.length (body comment)) min_length).
    + tauto.
    + split; [discriminate|].
      intros [H'|[H'|[H'|H']]]; try discriminate; try lia;
        exfalso; apply Hm; auto.
Qed.

Section ExampleFacts.

Variable encode_utf8 : string -> bytes.
Variable d : Dict.t Comment.

Lemma get_context_fields (path : list string) (i a n : nat) :
  Dict.get (map (context_field encode_utf8 d path) (seq a n))
    ("context/" ++ format_nat i)
  = if (a <=? i) && (i <? a + n)
    then Some [encode_utf8 (ancestor_body d path i)] else None.
Proof.
  revert a; induction n as [|n IH]; intros a.
  - cbn [seq map Dict.get].
    destruct (Nat.leb_spec a i), (Nat.ltb_spec i (a + 0));
      try reflexivity; lia.
  - cbn [seq map]. unfold context_field at 1. cbn [Dict.get].
    rewrite context_name_eqb.
    destruct (Nat.eqb_spec i a) as [->|Hne].
    + destruct (Nat.leb_spec a a), (Nat.ltb_spec a (a + S n));
        try reflexivity; lia.
    + rewrite IH.
      destruct (Nat.leb_spec (S a) i), (Nat.ltb_spec i (S a + n)),
        (Nat.leb_spec a i), (Nat.ltb_spec i (a + S n));
        try reflexivity; lia.
Qed.

Lemma append_fresh (example : Example) (name : string) (value : bytes) :
  Dict.get example name = None ->
  Dict.append example name value = example ++ [(name, [value])].
Proof.
  intros H. unfold Dict.append, Dict.get_default. rewrite H.
  apply setitem_fresh, H.
Qed.

(** The walk over the ancestors, from [i] on: it never raises on a path
    of keys, and appends one field per ancestor until the window or the
    path is exhausted. *)
Lemma add_contexts_spec (path : list string) (n : nat) :
  Forall (fun x => In x (Dict.keys d)) path ->
  forall i example,
    (forall j, i <= j ->
               Dict.get example ("context/" ++ format_nat j) = None) ->
    add_contexts encode_utf8 d path example i n
    = Ok (example
          ++ map (context_field encode_utf8 d path)
               (seq i (Nat.min n (List.length path - 2 - i)))).
Proof.
  intros Hkeys. induction n as [|n IH]; intros i example Hfresh.
  - cbn. rewrite app_nil_r. reflexivity.
  - cbn [add_contexts].
    destruct (Nat.le_gt_cases (3 + i) (List.length path)) as [Hlen|Hlen].
    + destruct (index_neg_ok path (3 + i)) as (a & Ha & ->); [lia|].
      assert (Hin : In a (Dict.keys d)).
      { rewrite Forall_forall in Hkeys. apply Hkeys.
        eapply nth_error_In, Ha. }
      destruct (keys_In_get d a Hin) as (c & Hc).
      unfold Dict.getitem. rewrite Hc. cbn [bind].
      unfold _add_string_feature.
      rewrite append_fresh by (apply Hfresh; lia).
      rewrite IH.
      * replace (Nat.min (S n) (List.length path - 2 - i))
          with (S (Nat.min n (List.length path - 2 - S i))) by lia.
        cbn [seq map]. rewrite <- app_assoc. cbn [app].
        assert (Hf : context_field encode_utf8 d path i
                     = (("context/" ++ format_nat i)%string,
                        [encode_utf8 (body c)])).
        { unfold context_field, ancestor_body. rewrite Ha, Hc.
          reflexivity. }
        rewrite Hf. reflexivity.
      * intros j Hj. rewrite get_app, Hfresh by lia. cbn [Dict.get].
        rewrite context_name_eqb.
        destruct (Nat.eqb_spec j i); [lia | reflexivity].
    + rewrite index_neg_short by lia.
      replace (Nat.min (S n) (List.length path - 2 - i)) with 0 by lia.
      cbn. rewrite app_nil_r. reflexivity.
Qed.

(** The loop body on a yielded path: both lookups succeed, a skipped
    pair gives nothing and any other pair gives the example with the
    fields of [example_fields]. *)
Lemma example_of_path_spec (parent_depth min_length : nat)
  (path : list string) :
  yielded_ok d parent_depth path ->
  exists response context context_id,
    Dict.get d (last_id path) = Some response
    /\ nth_error path (List.length path - 2) = Some context_id
    /\ Dict.get d context_id = Some context
    /\ example_of_path encode_utf8 d parent_depth min_length path
       = Ok (if _should_skip response min_length
                || _should_skip context min_length
             then None
             else Some (example_fields encode_utf8 d parent_depth path
                          response context)).
Proof.
  intros (H2 & Hne & _ & Hkeys & _).
  pose proof Hkeys as Hk. rewrite Forall_forall in Hk.
  destruct (keys_In_get d (last_id path)) as (response & Hr).
  { apply Hk, last_id_In, Hne. }
  destruct (index_neg_ok path 2) as (cid & Hcid & Hidx); [lia|].
  destruct (keys_In_get d cid) as (context & Hc).
  { apply Hk. eapply nth_error_In, Hcid. }
  exists response, context, cid. repeat split; auto.
  unfold example_of_path.
  rewrite index_neg_last by exact Hne. cbn [bind].
  unfold Dict.getitem at 1. rewrite Hr. cbn [bind].
  rewrite Hidx. cbn [bind].
  unfold Dict.getitem at 1. rewrite Hc. cbn [bind].
  destruct (_should_skip response min_length
            || _should_skip context min_length); [reflexivity|].
  cbv zeta. rewrite add_contexts_spec;
    [| exact Hkeys | intros j _; reflexivity].
  cbn [bind]. rewrite Nat.sub_0_r. reflexivity.
Qed.

Lemma examples_of_paths_spec (parent_depth min_length : nat)
  (paths : list (list string)) :
  Forall (yielded_ok d parent_depth) paths ->
  exists outcomes,
    Forall2 (fun path outcome =>
               example_of_path encode_utf8 d parent_depth min_length path
               = Ok outcome) paths outcomes
    /\ examples_of_paths encode_utf8 d parent_depth min_length paths
       = Ok (flat_map yields_of outcomes).
Proof.
  induction paths as [|path paths IH]; intros Hall.
  - exists []. split; [constructor | reflexivity].
  - inversion Hall as [|? ? Hp Hall']; subst.
    destruct (IH Hall') as (outs & HF & E).
    destruct (example_of_path_spec parent_depth min_length path Hp)
      as (r & c & cid & _ & _ & _ & Ep).
    eexists (_ :: outs). split.
    + constructor; [exact Ep | exact HF].
    + cbn [examples_of_paths]. rewrite Ep, E. cbn [bind flat_map].
      destruct (_ || _); reflexivity.
Qed.

End ExampleFacts.

Lemma Forall2_strengthen {A B : Type} (P : A -> Prop) (R R' : A -> B -> Prop)
  (l : list A) (l' : list B) :
  (forall a b, P a -> R a b -> R' a b) ->
  Forall P l -> Forall2 R l l' -> Forall2 R' l l'.
Proof.
  intros H HP HR. induction HR as [|a b l l' Hab HR IH]; constructor.
  - apply H; [inversion HP; auto | exact Hab].
  - apply IH. inversion HP; auto.
Qed.

(** C7: [create_examples] runs the loop body once per linear path, in
    order.  On each path the response (last element) and the context
    (second-to-last) are found in the dict, and the body yields nothing
    exactly when one of them is skipped, and one whole example otherwise.
    A comment is skipped exactly when it is flagged as trimmed, or its body
    is ["[deleted]"] or ["[removed]"], or its body is shorter than
    [min_length]. *)
Theorem create_examples_filter (encode_utf8 : string -> bytes)
  (thread : list Comment) (parent_depth min_length : nat) :
  let d := index_thread thread in
  (exists paths outcomes,
     linear_paths d parent_depth = Ok paths
     /\ Forall2
          (fun path outcome =>
             exists response context context_id,
               Dict.get d (last_id path) = Some response
               /\ nth_error path (List.length path - 2) = Some context_id
               /\ Dict.get d context_id = Some context
               /\ example_of_path encode_utf8 d parent_depth min_length path
                  = Ok outcome
               /\ (outcome = None
                   <-> _should_skip response min_length = true
                       \/ _should_skip context min_length = true))
          paths outcomes
     /\ create_examples encode_utf8 thread parent_depth min_length
        = Ok (flat_map yields_of outcomes))
  /\ forall comment,
       _should_skip comment min_length = true
       <-> body_is_trimmed comment = true
           \/ body comment = "[deleted]" \/ body comment = "[removed]"
           \/ String.length (body comment) < min_length.
Proof.
  intros d. split; [|intros comment; apply should_skip_iff].
  destruct (linear_paths_spec d parent_depth (wf_index_thread thread))
    as (paths & E & Hy & _).
  destruct (examples_of_paths_spec encode_utf8 d parent_depth min_length
              paths Hy) as (outs & HF & Eo).
  exists paths, outs. split; [exact E|]. split.
  - eapply Forall2_strengthen; [|exact Hy|exact HF].
    intros path o Hp Ho. cbv beta in Ho.
    destruct (example_of_path_spec encode_utf8 d parent_depth min_length
                path Hp) as (r & c & cid & Hr & Hcid & Hc & Ep).
    exists r, c, cid. repeat split; auto.
    + intros ->. rewrite Ep in Ho.
      destruct (_should_skip r min_length || _should_skip c min_length)
        eqn:Hs; [|discriminate].
      apply orb_true_iff, Hs.
    + intros Hs. apply orb_true_iff in Hs. rewrite Hs in Ep.
      congruence.
  - unfold create_examples. fold d. rewrite E. cbn [bind]. exact Eo.
Qed.

(** On the chain, with [min_length = 5], only the pair (A, B) survives:
    C is deleted, and D answers C. *)
Example create_examples_chain :
  create_examples list_byte_of_string chain_thread 2 5
  = Ok [example_fields list_byte_of_string (index_thread chain_thread) 2
          ["A"; "B"]
          (sample_comment "B" "A" "a reply to the first")
          (sample_comment "A" "abc" "the first comment")].
Proof. reflexivity. Qed.

(** C9: an example yielded for a linear path holds the six fields of the
    pair, each with the one UTF-8 value taken from the response or the
    context; for every [i] below [parent_depth - 1] it holds [context/i]
    exactly when the path has an element at reverse index [-3 - i], with
    the body of that comment as its one value; no field name occurs
    twice and every field has exactly one value. *)
Theorem example_fields_of_path (encode_utf8 : string -> bytes)
  (d : Dict.t Comment) (parent_depth min_length : nat)
  (paths : list (list string)) (path : list string) (example : Example) :
  Dict.wf d ->
  linear_paths d parent_depth = Ok paths -> In path paths ->
  example_of_path encode_utf8 d parent_depth min_length path
  = Ok (Some example) ->
  exists response context context_id,
    Dict.get d (last_id path) = Some response
    /\ nth_error path (List.length path - 2) = Some context_id
    /\ Dict.get d context_id = Some context
    /\ Dict.get example "subreddit" = Some [encode_utf8 (subreddit response)]
    /\ Dict.get example "thread_id" = Some [encode_utf8 (thread_id response)]
    /\ Dict.get example "context_author" = Some [encode_utf8 (author context)]
    /\ Dict.get example "response_author"
       = Some [encode_utf8 (author response)]
    /\ Dict.get example "context" = Some [encode_utf8 (body context)]
    /\ Dict.get example "response" = Some [encode_utf8 (body response)]
    /\ (forall i, i < parent_depth - 1 ->
          (3 + i <= List.length path ->
           exists a c,
             nth_error path (List.length path - (3 + i)) = Some a
             /\ Dict.get d a = Some c
             /\ Dict.get example ("context/" ++ format_nat i)
                = Some [encode_utf8 (body c)])
          /\ (List.length path < 3 + i ->
              Dict.get example ("context/" ++ format_nat i) = None))
    /\ Dict.wf example
    /\ Forall (fun field => List.length (snd field) = 1) example.
Proof.
  intros Hwf Hpaths Hin Hex.
  destruct (linear_paths_spec d parent_depth Hwf) as (out & E & Hy & _).
  rewrite Hpaths in E. injection E as <-.
  rewrite Forall_forall in Hy. pose proof (Hy path Hin) as Hp.
  destruct (example_of_path_spec encode_utf8 d parent_depth min_length
              path Hp) as (r & c & cid & Hr & Hcid & Hc & Ep).
  rewrite Ep in Hex.
  destruct (_should_skip r min_length || _should_skip c min_length);
    [discriminate|].
  injection Hex as <-.
  exists r, c, cid. unfold example_fields.
  repeat (split; [first [assumption | reflexivity]|]).
  split; [|split].
  - intros i Hi. rewrite get_app.
    change (Dict.get (base_fields encode_utf8 r c)
              ("context/" ++ format_nat i)) with (@None (list bytes)).
    rewrite get_context_fields. cbn [Nat.leb andb Nat.add]. split.
    + intros Hlen.
      destruct (index_neg_ok path (3 + i)) as (a & Ha & _); [lia|].
      destruct Hp as (_ & _ & _ & Hk & _). rewrite Forall_forall in Hk.
      destruct (keys_In_get d a) as (ca & Hca).
      { apply Hk. eapply nth_error_In, Ha. }
      exists a, ca. repeat split; auto.
      destruct (Nat.ltb_spec i
                  (Nat.min (parent_depth - 1) (List.length path - 2)));
        [|lia].
      unfold ancestor_body. rewrite Ha, Hca. reflexivity.
    + intros Hlen.
      destruct (Nat.ltb_spec i
                  (Nat.min (parent_depth - 1) (List.length path - 2)));
        [lia | reflexivity].
  - unfold Dict.wf, Dict.keys. rewrite map_app, map_map.
    apply NoDup_app.
    + cbn. repeat constructor; cbn; intuition discriminate.
    + apply Finite.Injective_map_NoDup; [|apply seq_NoDup].
      intros i j Hij. cbn in Hij. apply format_nat_inj. congruence.
    + intros x Hx Hx'. apply in_map_iff in Hx'.
      destruct Hx' as (i & <- & _). cbn in Hx.
      intuition discriminate.
  - apply Forall_app. split.
    + repeat constructor.
    + apply Forall_forall. intros f Hf. apply in_map_iff in Hf.
      destruct Hf as (i & <- & _). reflexivity.
Qed.

Lemma example_fields_of_path_witness :
  Dict.wf (index_thread deep_thread)
  /\ linear_paths (index_thread deep_thread) 3
     = Ok [["A"; "B"]; ["A"; "B"; "C"]; ["A"; "B"; "C"; "D"];
           ["B"; "C"; "D"; "E"]]
  /\ exists example,
       example_of_path list_byte_of_string (index_thread deep_thread) 3 5
         ["B"; "C"; "D"; "E"] = Ok (Some example)
       /\ Dict.get example "context/0"
          = Some [list_byte_of_string "[deleted]"]
       /\ Dict.get example "context/1"
          = Some [list_byte_of_string "a reply to the first"]
       /\ Dict.get example "context/2" = None
       /\ Dict.wf example.
Proof.
  split; [apply wf_index_thread|]. split; [reflexivity|].
  eexists. split; [reflexivity|].
  pose proof (example_fields_of_path list_byte_of_string
                (index_thread deep_thread) 3 5 _ ["B"; "C"; "D"; "E"] _
                (wf_index_thread deep_thread) eq_refl
                (or_intror (or_intror (or_intror (or_introl eq_refl))))
                eq_refl) as H.
  destruct H as (_ & _ & _ & _ & _ & _ & _ & _ & _ & _ & _ & _ & _ & Hwf & _).
  repeat split; try reflexivity. exact Hwf.
Defined.

(** ** Degenerate threads *)

Lemma extend_paths_no_children (parent_depth : nat)
  (id_to_children : Dict.t (list string)) (paths : list (list string))
  (seen : list string) :
  Forall (fun path => path <> []
                      /\ Dict.get_default id_to_children (last_id path) = [])
    paths ->
  extend_paths parent_depth id_to_children paths seen = Ok ([], seen).
Proof.
  induction paths as [|path paths IH]; intros Hall; [reflexivity|].
  inversion Hall as [|? ? [Hne Hnil] Hall']; subst.
  cbn [extend_paths]. rewrite index_neg_last by exact Hne. cbn [bind].
  rewrite Hnil. cbn [extend_path]. rewrite (IH Hall'). reflexivity.
Qed.

(** X2: A thread in which every comment is a root (a single root comment, for
    one) has no linear path and gives no example. *)
Lemma linear_paths_all_roots (d : Dict.t Comment) (parent_depth : nat) :
  Dict.wf d ->
  (forall k c, In (k, c) d -> Dict.mem d (parent_id c) = false) ->
  linear_paths d parent_depth = Ok [].
Proof.
  intros Hwf Hroots. unfold linear_paths.
  destruct (build_index_spec d Hwf) as (seen & ch & -> & _ & Hch).
  destruct (map (fun k => [k]) (root_ids d d)) as [|p ps] eqn:Ep;
    [reflexivity|].
  cbn [paths_loop]. rewrite extend_paths_no_children.
  - cbn [bind]. rewrite paths_loop_nil. reflexivity.
  - rewrite <- Ep. apply Forall_forall. intros path Hin.
    apply in_map_iff in Hin. destruct Hin as (k & <- & Hk).
    split; [discriminate|]. cbn.
    destruct (Dict.get_default ch k) as [|x l] eqn:E; [reflexivity|].
    exfalso.
    assert (Hx : direct_reply d k x = true).
    { apply Hch. rewrite E. left; reflexivity. }
    unfold direct_reply in Hx.
    destruct (Dict.get d x) as [c|] eqn:Hc; [|discriminate].
    apply String.eqb_eq in Hx. apply get_In in Hc.
    apply Hroots in Hc. rewrite Hx in Hc.
    apply root_ids_keys in Hk.
    destruct (keys_In_get d k Hk) as (ck & Hck).
    unfold Dict.mem in Hc. rewrite Hck in Hc. discriminate.
Qed.

Lemma linear_paths_all_roots_witness :
  linear_paths
    (index_thread [sample_comment "1" "abc" "the only comment"]) 10 = Ok [].
Proof.
  apply linear_paths_all_roots.
  - apply wf_index_thread.
  - intros k c [[= <- <-]|[]]. reflexivity.
Defined.

(** ** From rows to examples *)

(** X3: The thread ["t3_abc"] with a root and one reply ["hello world"], with
    [max_length = 127], [min_length = 5] and [parent_depth = 10]: a root
    body of fewer than 5 characters leaves no example. *)
Lemma short_root_gives_no_example (isalnum : ascii -> bool)
  (encode_utf8 : string -> bytes) (root_body : string) :
  String.length root_body < 5 ->
  exists root reply,
    normalise_comment isalnum
      (mkRow "1" "t3_abc" "t3_abc" root_body "y" "r") 127 = Ok root
    /\ normalise_comment isalnum
         (mkRow "2" "t3_abc" "t1_1" "hello world" "x" "r") 127 = Ok reply
    /\ thread_id root = "abc" /\ thread_id reply = "abc"
    /\ linear_paths (index_thread [root; reply]) 10 = Ok [["1"; "2"]]
    /\ create_examples encode_utf8 [root; reply] 10 5 = Ok [].
Proof.
  intros Hlen.
  assert (Er : normalise_comment isalnum
                 (mkRow "1" "t3_abc" "t3_abc" root_body "y" "r") 127
               = Ok (mkComment "1" "abc" "abc" root_body false "y" "r")).
  { unfold normalise_comment, trim. cbn [row_body].
    destruct (Nat.leb_spec (String.length root_body) 127); [|lia].
    cbn [bind]. do 2 f_equal. apply Nat.ltb_ge. lia. }
  eexists. eexists. split; [exact Er|]. split; [reflexivity|].
  split; [reflexivity|]. split; [reflexivity|]. split; [reflexivity|].
  unfold create_examples.
  change (linear_paths (index_thread _) 10) with (Ok [["1"; "2"]]).
  cbn [bind examples_of_paths]. unfold example_of_path.
  change (Py.index_neg ["1"; "2"] 1) with (@Ok string "2").
  change (Py.index_neg ["1"; "2"] 2) with (@Ok string "1").
  cbn [bind]. unfold Dict.getitem.
  match goal with
  | |- context [Dict.get ?d "2"] =>
      change (Dict.get d "2") with
        (Some (mkComment "2" "abc" "1" "hello world" false "x" "r"));
      change (Dict.get d "1") with
        (Some (mkComment "1" "abc" "abc" root_body false "y" "r"))
  end.
  cbn [bind].
  assert (Hs : _should_skip
                 (mkComment "1" "abc" "abc" root_body false "y" "r") 5
               = true).
  { apply should_skip_iff. right. right. right. exact Hlen. }
  rewrite Hs, orb_true_r. reflexivity.
Qed.

Lemma short_root_gives_no_example_witness :
  create_examples list_byte_of_string
    [mkComment "1" "abc" "abc" "hi" false "y" "r";
     mkComment "2" "abc" "1" "hello world" false "x" "r"] 10 5 = Ok [].
Proof.
  destruct (short_root_gives_no_example ascii_isalnum list_byte_of_string
              "hi") as (root & reply & Er & Ep & _ & _ & _ & E);
    [cbn; lia|].
  injection Er as <-. injection Ep as <-. exact E.
Defined.

(** With a root body of 5 characters or more the same thread gives its
    one example. *)
Example long_root_gives_one_example :
  create_examples list_byte_of_string
    [mkComment "1" "abc" "abc" "a root body" false "y" "r";
     mkComment "2" "abc" "1" "hello world" false "x" "r"] 10 5
  = Ok [ [ ("subreddit", [list_byte_of_string "r"]);
           ("thread_id", [list_byte_of_string "abc"]);
           ("context_author", [list_byte_of_string "y"]);
           ("response_author", [list_byte_of_string "x"]);
           ("context", [list_byte_of_string "a root body"]);
           ("response", [list_byte_of_string "hello world"]) ] ].
Proof. reflexivity. Qed.

(** The split of an example made by [create_examples] is decided by the
    [thread_id] of its response: [process] reads back the one value of the
    field, which is the encoded [thread_id]. *)
Lemma process_created_example (md5 : bytes -> N)
  (encode_utf8 : string -> bytes) (train_split : Q) (d : Dict.t Comment)
  (parent_depth min_length : nat) (path : list string) (example : Example) :
  yielded_ok d parent_depth path ->
  example_of_path encode_utf8 d parent_depth min_length path
  = Ok (Some example) ->
  exists response v,
    Dict.get d (last_id path) = Some response
    /\ _split_value md5 default_num_buckets
         (encode_utf8 (thread_id response)) = Ok v
    /\ process md5 train_split default_num_buckets example
       = Ok (if Qltb v train_split then TRAIN_TAG else TEST_TAG, example).
Proof.
  intros Hp Hex.
  destruct (example_of_path_spec encode_utf8 d parent_depth min_length
              path Hp) as (r & c & cid & Hr & _ & _ & Ep).
  rewrite Ep in Hex.
  destruct (_should_skip r min_length || _should_skip c min_length);
    [discriminate|].
  injection Hex as <-.
  exists r. eexists. split; [exact Hr|]. split; [reflexivity|].
  reflexivity.
Qed.

(** * Further properties *)

(** ** [trim]: where it cuts and when it raises *)

Section TrimMore.

Variable isalnum : ascii -> bool.

(** When the loop stops on a boundary, all that it dropped is on the side
    of the last character it kept. *)
Lemma trim_loop_tail_run (fuel : nat) :
  forall text r,
    String.length text < fuel ->
    trim_loop isalnum fuel text = Ok r ->
    forall j a b,
      String.length r - 1 <= j < String.length text ->
      String.get j text = Some a ->
      String.get (String.length r - 1) text = Some b ->
      isalnum a = isalnum b.
Proof.
  induction fuel as [|fuel IH]; intros text r Hlen E j a b Hj Ha Hb; [lia|].
  cbn [trim_loop] in E.
  destruct (Nat.eqb_spec (String.length text) 0) as [H0|H0]; [lia|].
  destruct (str_index_neg_ok text 1) as (a0 & Ha0 & E1); [lia|].
  rewrite E1 in E. cbn [bind] in E.
  destruct (Nat.le_gt_cases 2 (String.length text)) as [H2|H2].
  2:{ rewrite str_index_neg_short in E by lia. discriminate. }
  destruct (str_index_neg_ok text 2) as (b0 & Hb0 & E2); [lia|].
  rewrite E2 in E. cbn [bind] in E.
  destruct (Bool.eqb (isalnum a0) (isalnum b0)) eqn:Hab.
  2:{ injection E as <-.
      assert (j = String.length text - 1) by lia. subst j. congruence. }
  apply Bool.eqb_prop in Hab.
  set (text' := Py.str_drop_last text) in *.
  assert (Hlen' : String.length text' = String.length text - 1).
  { unfold text', Py.str_drop_last. rewrite length_substring0. lia. }
  assert (Hget : forall i, i < String.length text - 1 ->
                           String.get i text' = String.get i text).
  { intros i Hi. unfold text', Py.str_drop_last.
    apply get_substring0; auto. }
  assert (Hr : 2 <= String.length r <= String.length text').
  { destruct (trim_loop_spec isalnum fuel text')
      as [[Et _]|[(_ & _ & Er)|(k & Hk & _ & Er)]]; [lia | | | ].
    - rewrite Et in Hlen'. cbn in Hlen'. lia.
    - rewrite Er in E. discriminate.
    - rewrite Er in E. injection E as <-.
      rewrite length_substring0. lia. }
  destruct (Nat.eq_dec j (String.length text - 1)) as [->|Hnj].
  - assert (a = a0) by congruence. subst a. rewrite Hab.
    apply (IH text' r ltac:(lia) E (String.length text - 2) b0 b);
      rewrite ?Hget by lia; auto; lia.
  - apply (IH text' r ltac:(lia) E j a b);
      rewrite ?Hget by lia; auto; lia.
Qed.

(** X4: [trim] keeps as much as the limit allows: on a long body there is no
    boundary after the cut among the first [max_length + 1] characters, so
    the result is the longest prefix of at most [max_length] characters
    that ends where an alphanumeric run begins or ends. *)
Theorem trim_cuts_at_last_boundary (text r : string) (max_length : nat) :
  1 <= max_length -> max_length < String.length text ->
  trim isalnum text max_length = Ok r ->
  boundary_at isalnum text (String.length r)
  /\ forall k, String.length r < k <= max_length ->
               ~ boundary_at isalnum text k.
Proof.
  intros Hpos Hlong Hr.
  split; [apply (trim_long_ok isalnum text r max_length); auto|].
  unfold trim in Hr.
  destruct (Nat.leb_spec (String.length text) max_length) as [H|_]; [lia|].
  cbv zeta in Hr. unfold Py.str_slice_to in Hr.
  set (t := String.substring 0 (max_length + 1) text) in *.
  assert (Hlen : String.length t = max_length + 1).
  { unfold t. rewrite length_substring0. lia. }
  assert (Hget : forall i, i < max_length + 1 ->
                           String.get i t = String.get i text).
  { intros i Hi. apply get_substring0; auto. }
  destruct (trim_loop isalnum (S (String.length t)) t) as [r0| |] eqn:E0;
    try discriminate.
  cbn [bind] in Hr. injection Hr as <-.
  assert (Hr0 : 2 <= String.length r0 <= String.length t).
  { destruct (trim_loop_spec isalnum (S (String.length t)) t)
      as [[Et _]|[(_ & _ & Er)|(k & Hk & _ & Er)]]; [lia | | | ].
    - rewrite Et in Hlen. cbn in Hlen. lia.
    - rewrite Er in E0. discriminate.
    - rewrite Er in E0. injection E0 as <-.
      rewrite length_substring0. lia. }
  assert (Hcut : String.length (Py.str_drop_last r0) = String.length r0 - 1).
  { unfold Py.str_drop_last. rewrite length_substring0. lia. }
  rewrite Hcut. intros k Hk (a & b & Ha & Hb & Hab).
  destruct (get_lt_Some t (String.length r0 - 1)) as (c & Hc); [lia|].
  apply Hab.
  assert (Hrun : forall j x, String.length r0 - 1 <= j <= max_length ->
                             String.get j text = Some x ->
                             isalnum x = isalnum c).
  { intros j x Hj Hx.
    apply (trim_loop_tail_run (S (String.length t)) t r0 ltac:(lia) E0 j x c).
    - lia.
    - rewrite Hget by lia. exact Hx.
    - exact Hc. }
  rewrite (Hrun (k - 1) a), (Hrun k b); auto; lia.
Qed.

End TrimMore.

Lemma trim_cuts_at_last_boundary_witness :
  trim ascii_isalnum "aa bb cc" 4 = Ok "aa "
  /\ boundary_at ascii_isalnum "aa bb cc" 3
  /\ ~ boundary_at ascii_isalnum "aa bb cc" 4.
Proof.
  split; [reflexivity|].
  destruct (trim_cuts_at_last_boundary ascii_isalnum "aa bb cc" "aa " 4)
    as (Hb & Hno); [lia | cbn; lia | reflexivity |].
  split; [exact Hb | apply Hno; cbn; lia].
Defined.

(** X5: [trim] raises exactly on the bodies longer than [max_length] whose
    first [max_length + 1] characters are on one side, and what it raises
    is [IndexError]; this covers [max_length = 0], where every non-empty
    body is such a body. *)
Theorem trim_raises_iff (isalnum : ascii -> bool) (text : string)
  (max_length : nat) (e : exn) :
  trim isalnum text max_length = Raise e
  <-> e = IndexError
      /\ max_length < String.length text
      /\ single_run isalnum text (max_length + 1).
Proof.
  unfold trim.
  destruct (Nat.leb_spec (String.length text) max_length) as [Hle|Hlong].
  { split; [discriminate | intros (_ & H & _); lia]. }
  cbv zeta. unfold Py.str_slice_to.
  set (t := String.substring 0 (max_length + 1) text).
  assert (Hlen : String.length t = max_length + 1).
  { unfold t. rewrite length_substring0. lia. }
  assert (Hget : forall i, i < max_length + 1 ->
                           String.get i t = String.get i text).
  { intros i Hi. apply get_substring0; auto. }
  destruct (trim_loop_spec isalnum (S (String.length t)) t)
    as [[E _]|[(_ & Hrun & ->)|(k & Hk & Hb & ->)]]; [lia | | | ].
  - exfalso. rewrite E in Hlen. cbn in Hlen. lia.
  - cbn [bind]. split.
    + intros [= <-]. repeat split; auto.
      intros i a b Hi Ha Hb. apply (Hrun i a b);
        rewrite ?Hget by lia; auto; lia.
    + intros (-> & _ & _). reflexivity.
  - cbn [bind]. split; [discriminate|]. intros (_ & _ & Hrun). exfalso.
    apply (single_run_no_boundary isalnum t (max_length + 1) k);
      [lia | | exact Hb].
    intros i a b Hi Ha Hb'. apply (Hrun i a b); rewrite <- ?Hget by lia; auto.
Qed.

(** ** [linear_paths]: which comments are visited *)

Lemma index_neg_1_last (path : list string) (x : string) :
  Py.index_neg path 1 = Ok x -> path <> [] /\ x = last_id path.
Proof.
  intros E. destruct path as [|a path]; [discriminate|].
  split; [discriminate|].
  rewrite index_neg_last in E by discriminate. congruence.
Qed.

(** What one path adds: every child ends up seen, and the new paths end
    in children. *)
Lemma extend_path_seen (parent_depth : nat) (path children : list string) :
  forall seen new_paths seen',
    extend_path parent_depth path children seen = (new_paths, seen') ->
    (forall x, In x seen' <-> In x seen \/ In x (map last_id new_paths))
    /\ (forall x, In x children -> In x seen')
    /\ (forall p, In p new_paths ->
          exists c, In c children
                    /\ p = Py.slice_from_neg path parent_depth ++ [c]).
Proof.
  induction children as [|c children IH]; intros seen nps seen' E.
  - cbn in E. injection E as <- <-. cbn. repeat split; tauto.
  - cbn [extend_path] in E. destruct (Py.mem c seen) eqn:Hmem.
    + apply mem_In in Hmem. apply IH in E.
      destruct E as (Hs & Hk & Hp). split; [exact Hs|]. split.
      * intros x [<-|Hx]; [apply Hs; left; exact Hmem | apply Hk, Hx].
      * intros p Hin. destruct (Hp p Hin) as (c' & Hc' & ->).
        exists c'. split; [right|]; auto.
    + destruct (extend_path parent_depth path children (set_add c seen))
        as [nps0 seen0] eqn:E0.
      injection E as <- <-. apply IH in E0.
      destruct E0 as (Hs & Hk & Hp). split; [|split].
      * intros x. rewrite Hs, set_add_In. cbn [map In].
        unfold last_id at 2. rewrite last_last. intuition auto.
      * intros x [<-|Hx]; [|apply Hk, Hx].
        apply Hs. left. apply set_add_In. left; reflexivity.
      * intros p [<-|Hin].
        -- exists c. split; [left|]; reflexivity.
        -- destruct (Hp p Hin) as (c' & Hc' & ->).
           exists c'. split; [right|]; auto.
Qed.

Lemma extend_paths_seen (parent_depth : nat) (ch : Dict.t (list string))
  (paths : list (list string)) :
  forall seen new_paths seen',
    extend_paths parent_depth ch paths seen = Ok (new_paths, seen') ->
    (forall x, In x seen' <-> In x seen \/ In x (map last_id new_paths))
    /\ (forall path x, In path paths ->
          In x (Dict.get_default ch (last_id path)) -> In x seen')
    /\ (forall p, In p new_paths ->
          exists path c,
            In path paths /\ path <> []
            /\ In c (Dict.get_default ch (last_id path))
            /\ p = Py.slice_from_neg path parent_depth ++ [c]).
Proof.
  induction paths as [|path paths IH]; intros seen nps seen' E.
  - cbn in E. injection E as <- <-. cbn. repeat split; tauto.
  - cbn [extend_paths] in E.
    destruct (Py.index_neg path 1) as [l| |] eqn:El; try discriminate.
    apply index_neg_1_last in El. destruct El as [Hne ->].
    cbn [bind] in E.
    destruct (extend_path parent_depth path
                (Dict.get_default ch (last_id path)) seen)
      as [nps1 seen1] eqn:E1.
    destruct (extend_paths parent_depth ch paths seen1)
      as [[nps2 seen2]| |] eqn:E2; try discriminate.
    cbn [bind] in E. injection E as <- <-.
    apply extend_path_seen in E1. destruct E1 as (Hs1 & Hk1 & Hp1).
    apply IH in E2. destruct E2 as (Hs2 & Hk2 & Hp2).
    split; [|split].
    + intros x. rewrite Hs2, Hs1, map_app, in_app_iff. tauto.
    + intros p x [<-|Hin] Hx.
      * apply Hs2. left. apply Hk1, Hx.
      * apply (Hk2 p x Hin Hx).
    + intros p Hin. apply in_app_or in Hin. destruct Hin as [Hin|Hin].
      * destruct (Hp1 p Hin) as (c & Hc & ->).
        exists path, c. repeat split; auto. left; reflexivity.
      * destruct (Hp2 p Hin) as (q & c & Hq & Hqne & Hc & ->).
        exists q, c. repeat split; auto. right; exact Hq.
Qed.

(** An invariant [I] of the work-list that every new path [Y] restores
    holds of all that the loop yields. *)
Lemma paths_loop_invariant (parent_depth : nat) (ch : Dict.t (list string))
  (I Y : list string -> Prop) :
  (forall path c, I path -> path <> [] ->
                  In c (Dict.get_default ch (last_id path)) ->
                  Y (Py.slice_from_neg path parent_depth ++ [c])) ->
  (forall p, Y p -> I p) ->
  forall fuel paths seen out,
    Forall I paths ->
    paths_loop fuel parent_depth ch paths seen = Ok out ->
    Forall Y out.
Proof.
  intros Hstep HYI. induction fuel as [|fuel IH];
    intros paths seen out Hall E.
  - destruct paths; [|discriminate]. injection E as <-. constructor.
  - destruct paths as [|path paths].
    { injection E as <-. constructor. }
    cbn [paths_loop] in E.
    destruct (extend_paths parent_depth ch (path :: paths) seen)
      as [[nps seen']| |] eqn:E1; try discriminate.
    cbn [bind] in E.
    destruct (paths_loop fuel parent_depth ch nps seen') as [rest| |] eqn:E2;
      try discriminate.
    cbn [bind] in E. injection E as <-.
    apply extend_paths_seen in E1. destruct E1 as (_ & _ & Hp).
    assert (HY : Forall Y nps).
    { apply Forall_forall. intros p Hin.
      destruct (Hp p Hin) as (q & c & Hq & Hqne & Hc & ->).
      rewrite Forall_forall in Hall. apply Hstep; auto. }
    apply Forall_app. split; [exact HY|].
    apply (IH nps seen' rest); [|exact E2].
    eapply Forall_impl; [|exact HY]. exact HYI.
Qed.

(** Every child of the last element of a work-list path or of a yielded
    path was seen before the loop or ends a yielded path. *)
Lemma paths_loop_children (parent_depth : nat) (ch : Dict.t (list string)) :
  forall fuel paths seen out,
    paths_loop fuel parent_depth ch paths seen = Ok out ->
    forall path x,
      In path paths \/ In path out ->
      In x (Dict.get_default ch (last_id path)) ->
      In x seen \/ In x (map last_id out).
Proof.
  induction fuel as [|fuel IH]; intros paths seen out E path x Hpath Hx.
  - destruct paths; [|discriminate]. injection E as <-.
    destruct Hpath as [[]|[]].
  - destruct paths as [|p0 paths].
    { injection E as <-. destruct Hpath as [[]|[]]. }
    cbn [paths_loop] in E.
    destruct (extend_paths parent_depth ch (p0 :: paths) seen)
      as [[nps seen']| |] eqn:E1; try discriminate.
    cbn [bind] in E.
    destruct (paths_loop fuel parent_depth ch nps seen') as [rest| |] eqn:E2;
      try discriminate.
    cbn [bind] in E. injection E as <-.
    apply extend_paths_seen in E1. destruct E1 as (Hs & Hk & _).
    rewrite map_app, in_app_iff.
    assert (Hseen' : In x seen' -> In x seen \/ In x (map last_id nps)
                                   \/ In x (map last_id rest)).
    { intros H. apply Hs in H. tauto. }
    destruct Hpath as [Hin|Hin].
    + apply Hseen'. apply (Hk path x Hin Hx).
    + assert (In path nps \/ In path rest) as Hin'
          by (apply in_app_or, Hin).
      destruct (IH nps seen' rest E2 path x Hin' Hx) as [H|H]; [|tauto].
      apply Hseen', H.
Qed.

Lemma snd_index_step (d : Dict.t Comment) (st : index_state) (k : string)
  (c : Comment) :
  snd (index_step d st (k, c)) = Dict.append (snd st) (parent_id c) k.
Proof.
  destruct st as [[paths seen] ch]. cbn [index_step snd].
  destruct (negb (Dict.mem d (parent_id c))); reflexivity.
Qed.

(** The reverse index is complete: every comment is listed under its
    parent. *)
Lemma index_fold_children (d : Dict.t Comment)
  (items : list (string * Comment)) :
  forall st,
    (forall p x, In x (Dict.get_default (snd st) p) ->
       In x (Dict.get_default (snd (fold_left (index_step d) items st)) p))
    /\ (forall x c, In (x, c) items ->
          In x (Dict.get_default (snd (fold_left (index_step d) items st))
                  (parent_id c))).
Proof.
  induction items as [|[k c] items IH]; intros st.
  - cbn. split; [auto | intros x c []].
  - cbn [fold_left]. destruct (IH (index_step d st (k, c))) as (Hmono & Hall).
    assert (Hstep : forall p x, In x (Dict.get_default (snd st) p) ->
              In x (Dict.get_default (snd (index_step d st (k, c))) p)).
    { intros p x Hx. rewrite snd_index_step, get_default_append.
      destruct (String.eqb_spec p (parent_id c)) as [->|_]; auto.
      apply in_or_app. left; exact Hx. }
    split.
    + intros p x Hx. apply Hmono, Hstep, Hx.
    + intros x c' [[= <- <-]|Hin]; [|apply Hall, Hin].
      apply Hmono. rewrite snd_index_step, get_default_append.
      rewrite String.eqb_refl. apply in_or_app. right. left; reflexivity.
Qed.

Lemma root_ids_iff (d : Dict.t Comment) (x : string) :
  Dict.wf d ->
  (In x (root_ids d d)
   <-> exists c, Dict.get d x = Some c /\ Dict.mem d (parent_id c) = false).
Proof.
  intros Hwf. unfold root_ids. rewrite in_map_iff. split.
  - intros ([k c] & <- & Hin). apply filter_In in Hin.
    destruct Hin as [Hin Hroot]. exists c. split.
    + apply wf_In_get; auto.
    + unfold is_root in Hroot. cbn in Hroot.
      apply negb_true_iff, Hroot.
  - intros (c & Hc & Hroot). exists (x, c). split; [reflexivity|].
    apply filter_In. split; [apply get_In, Hc|].
    unfold is_root. cbn. rewrite Hroot. reflexivity.
Qed.

Lemma reachable_key (d : Dict.t Comment) (x : string) :
  reachable d x -> Dict.mem d x = true.
Proof.
  intros H. unfold Dict.mem. destruct H as [k c Hc _|k c Hc _];
    rewrite Hc; reflexivity.
Qed.

(** With every comment descending from a root, a duplicate-free list of
    exactly the replies has as many elements as there are comments that
    are not roots. *)
Lemma replies_count (d : Dict.t Comment) (l : list string) :
  Dict.wf d -> NoDup l ->
  (forall k, In k (Dict.keys d) -> reachable d k) ->
  (forall x, In x l <-> reachable d x /\ is_reply d x = true) ->
  List.length l + List.length (root_ids d d) = List.length d.
Proof.
  intros Hwf Hnd Hall Hiff.
  rewrite <- (filter_length (is_root d) d).
  unfold root_ids. rewrite length_map, Nat.add_comm. f_equal.
  set (others := filter (fun x => negb (is_root d x)) d).
  rewrite <- (length_map fst others).
  apply Permutation_length, NoDup_Permutation;
    [exact Hnd | apply NoDup_map_fst_filter, Hwf |].
  intros x. rewrite Hiff, in_map_iff. unfold others. split.
  - intros [_ Hrep]. unfold is_reply in Hrep.
    destruct (Dict.get d x) as [c|] eqn:Hc; [|discriminate].
    exists (x, c). split; [reflexivity|].
    apply filter_In. split; [apply get_In, Hc|].
    unfold is_root. cbn. rewrite Hrep. reflexivity.
  - intros ([k c] & <- & Hin). apply filter_In in Hin.
    destruct Hin as [Hin Hroot]. cbn [fst]. split.
    + apply Hall. apply (in_map fst) in Hin. exact Hin.
    + unfold is_reply. rewrite (wf_In_get d k c Hwf Hin).
      unfold is_root in Hroot. cbn in Hroot.
      apply negb_true_iff in Hroot. apply negb_false_iff in Hroot.
      exact Hroot.
Qed.

(** X6: The traversal is exhaustive and exact: the comments that end a
    yielded path are the replies that descend from a root, each ending
    exactly one path.  So a thread in which every comment descends from a
    root has one path per reply: as many paths as comments that are not
    roots. *)
Theorem linear_paths_visits_replies (d : Dict.t Comment)
  (parent_depth : nat) :
  Dict.wf d ->
  exists out,
    linear_paths d parent_depth = Ok out
    /\ NoDup (map last_id out)
    /\ (forall x, In x (map last_id out)
                  <-> reachable d x /\ is_reply d x = true)
    /\ ((forall k, In k (Dict.keys d) -> reachable d k) ->
        List.length out + List.length (root_ids d d) = List.length d).
Proof.
  intros Hwf.
  destruct (linear_paths_spec d parent_depth Hwf) as (out & E & Hy & Hnd & Hr).
  exists out. split; [exact E|]. split; [exact Hnd|].
  assert (Hiff : forall x, In x (map last_id out)
                           <-> reachable d x /\ is_reply d x = true);
    [|split; [exact Hiff|];
      intros Hall; apply (replies_count d (map last_id out)) in Hiff; auto;
      rewrite length_map in Hiff; exact Hiff].
  unfold linear_paths in E.
  pose proof (index_fold_children d d ([], [], [])) as (_ & Hcomplete).
  fold (build_index d) in Hcomplete.
  destruct (build_index_spec d Hwf) as (seen & ch & Eb & Hseen & Hch).
  rewrite Eb in E, Hcomplete. cbn [snd] in Hcomplete.
  intros x. split.
  - intros Hx. split.
    + assert (HF : Forall (fun p => reachable d (last_id p)) out).
      { apply (paths_loop_invariant parent_depth ch
                 (fun p => reachable d (last_id p))
                 (fun p => reachable d (last_id p)))
          with (fuel := S (List.length d))
               (paths := map (fun k => [k]) (root_ids d d)) (seen := seen);
          auto.
        - intros path c Hp _ Hc. unfold last_id at 1. rewrite last_last.
          apply Hch in Hc. unfold direct_reply in Hc.
          destruct (Dict.get d c) as [cc|] eqn:Hcc; [|discriminate].
          apply String.eqb_eq in Hc.
          apply (reach_reply d c cc Hcc). rewrite Hc. exact Hp.
        - apply Forall_forall. intros p Hin. apply in_map_iff in Hin.
          destruct Hin as (k & <- & Hk). cbn.
          apply (root_ids_iff d k Hwf) in Hk. destruct Hk as (c & Hc & Hroot).
          apply (reach_root d k c Hc Hroot). }
      rewrite Forall_forall in HF. apply in_map_iff in Hx.
      destruct Hx as (p & <- & Hin). apply HF, Hin.
    + pose proof (Hr x Hx) as Hnot.
      assert (Hkey : In x (Dict.keys d)).
      { apply in_map_iff in Hx. destruct Hx as (p & <- & Hin).
        rewrite Forall_forall in Hy.
        destruct (Hy p Hin) as (_ & Hne & _ & Hk & _).
        rewrite Forall_forall in Hk. apply Hk, last_id_In, Hne. }
      destruct (keys_In_get d x Hkey) as (c & Hc).
      unfold is_reply. rewrite Hc.
      destruct (Dict.mem d (parent_id c)) eqn:Hm; [reflexivity|].
      exfalso. apply Hnot. apply root_ids_iff; eauto.
  - intros [Hreach Hreply].
    assert (HQ : forall y, reachable d y ->
                           In y (root_ids d d) \/ In y (map last_id out)).
    { intros y Hy'. induction Hy' as [k c Hc Hroot|k c Hc Hp IH].
      - left. apply root_ids_iff; eauto.
      - assert (Hpath : exists path,
                  (In path (map (fun k => [k]) (root_ids d d))
                   \/ In path out) /\ last_id path = parent_id c).
        { destruct IH as [H|H].
          - exists [parent_id c]. split; [left|reflexivity].
            apply in_map_iff. eauto.
          - apply in_map_iff in H. destruct H as (p & Hl & Hin).
            exists p. split; [right|]; auto. }
        destruct Hpath as (path & Hin & Hl).
        destruct (paths_loop_children parent_depth ch _ _ _ _ E path k Hin)
          as [H|H].
        + rewrite Hl. apply Hcomplete. apply get_In, Hc.
        + left. apply Hseen, H.
        + right. exact H. }
    destruct (HQ x Hreach) as [H|H]; [|exact H].
    exfalso. apply (root_ids_iff d x Hwf) in H. destruct H as (c & Hc & Hroot).
    unfold is_reply in Hreply. rewrite Hc, Hroot in Hreply. discriminate.
Qed.

Lemma linear_paths_visits_replies_witness :
  Dict.wf (index_thread cyclic_thread)
  /\ exists out,
       linear_paths (index_thread cyclic_thread) 10 = Ok out
       /\ NoDup (map last_id out)
       /\ (forall x, In x (map last_id out)
                     <-> reachable (index_thread cyclic_thread) x
                         /\ is_reply (index_thread cyclic_thread) x = true)
       /\ ((forall k, In k (Dict.keys (index_thread cyclic_thread)) ->
                      reachable (index_thread cyclic_thread) k) ->
           List.length out
           + List.length (root_ids (index_thread cyclic_thread)
                            (index_thread cyclic_thread))
           = List.length (index_thread cyclic_thread)).
Proof.
  split; [apply wf_index_thread|].
  apply (linear_paths_visits_replies (index_thread cyclic_thread) 10).
  apply wf_index_thread.
Defined.

(** ** [linear_paths]: the window is as long as it can be *)

Lemma slice_from_neg_all {A : Type} (l : list A) (k : nat) :
  List.length l <= k -> Py.slice_from_neg l k = l.
Proof.
  intros H. unfold Py.slice_from_neg. destruct (k =? 0); [reflexivity|].
  replace (List.length l - k) with 0 by lia. reflexivity.
Qed.

(** X7: A yielded path reaches back to a root unless the window cut it: it
    starts at a root comment or has exactly [parent_depth + 1] elements.
    With [parent_depth = 0] the slice [path[-0:]] keeps the whole path, so
    every path starts at a root. *)
Theorem linear_paths_window_full (d : Dict.t Comment) (parent_depth : nat) :
  Dict.wf d ->
  exists out,
    linear_paths d parent_depth = Ok out
    /\ forall path, In path out ->
         starts_at_root d path
         \/ (1 <= parent_depth /\ List.length path = parent_depth + 1).
Proof.
  intros Hwf.
  destruct (linear_paths_spec d parent_depth Hwf) as (out & E & _).
  exists out. split; [exact E|].
  unfold linear_paths in E.
  destruct (build_index_spec d Hwf) as (seen & ch & Eb & _ & Hch).
  rewrite Eb in E.
  set (I := fun path =>
              path_ok d parent_depth path
              /\ (starts_at_root d path
                  \/ (1 <= parent_depth
                      /\ List.length path = parent_depth + 1))).
  assert (HF : Forall I out).
  { apply (paths_loop_invariant parent_depth ch I I)
      with (fuel := S (List.length d))
           (paths := map (fun k => [k]) (root_ids d d)) (seen := seen);
      auto.
    - intros path c [Hok HJ] Hne Hc.
      assert (Hy : yielded_ok d parent_depth
                     (Py.slice_from_neg path parent_depth ++ [c])).
      { apply new_path_ok; auto. }
      split; [apply Hy|].
      destruct (Nat.le_gt_cases (List.length path) parent_depth) as [Hle|Hgt].
      + left. rewrite slice_from_neg_all by exact Hle.
        destruct HJ as [(r & rest & -> & Hr)|[_ Hlen]]; [|lia].
        exists r, (rest ++ [c]). split; [reflexivity | exact Hr].
      + destruct parent_depth as [|pd].
        * left. unfold Py.slice_from_neg. cbn [Nat.eqb].
          destruct HJ as [(r & rest & -> & Hr)|[Hpd _]]; [|lia].
          exists r, (rest ++ [c]). split; [reflexivity | exact Hr].
        * right. split; [lia|].
          rewrite length_app, slice_from_neg_length by lia.
          cbn [List.length]. lia.
    - apply Forall_forall. intros p Hin. apply in_map_iff in Hin.
      destruct Hin as (k & <- & Hk). split.
      + pose proof (root_paths_ok d parent_depth) as HR.
        rewrite Forall_forall in HR. apply HR. apply in_map_iff. eauto.
      + left. exists k, []. split; [reflexivity | exact Hk]. }
  rewrite Forall_forall in HF. intros path Hin. apply (HF path Hin).
Qed.

Lemma linear_paths_window_full_witness :
  Dict.wf (index_thread deep_thread)
  /\ exists out,
       linear_paths (index_thread deep_thread) 2 = Ok out
       /\ forall path, In path out ->
            starts_at_root (index_thread deep_thread) path
            \/ (1 <= 2 /\ List.length path = 2 + 1).
Proof.
  split; [apply wf_index_thread|].
  apply (linear_paths_window_full (index_thread deep_thread) 2).
  apply wf_index_thread.
Defined.

(** ** The dict of a thread *)

Lemma find_app {A : Type} (f : A -> bool) (l1 l2 : list A) :
  find f (l1 ++ l2)
  = match find f l1 with Some x => Some x | None => find f l2 end.
Proof.
  induction l1 as [|a l1 IH]; cbn; [reflexivity|].
  destruct (f a); auto.
Qed.

Lemma get_fold_setitem (thread : list Comment) :
  forall (d0 : Dict.t Comment) (k : string),
    Dict.get (fold_left (fun d c => Dict.setitem d (id c) c) thread d0) k
    = match find (fun c => String.eqb (id c) k) (rev thread) with
      | Some c => Some c
      | None => Dict.get d0 k
      end.
Proof.
  induction thread as [|c thread IH]; intros d0 k; [reflexivity|].
  cbn [fold_left rev]. rewrite IH, find_app, get_setitem. cbn [find].
  rewrite (String.eqb_sym k (id c)).
  destruct (find _ (rev thread)); [reflexivity|].
  destruct (String.eqb (id c) k); reflexivity.
Qed.

(** X8: The dict comprehension keys the comments by [id]: no id occurs twice,
    and looking an id up gives the last comment of the thread that has it
    (a later duplicate replaces an earlier one), or nothing when no
    comment has it. *)
Theorem index_thread_lookup (thread : list Comment) :
  Dict.wf (index_thread thread)
  /\ forall k, Dict.get (index_thread thread) k
               = find (fun c => String.eqb (id c) k) (rev thread).
Proof.
  split; [apply wf_index_thread|].
  intros k. unfold index_thread. rewrite get_fold_setitem.
  destruct (find _ (rev thread)); reflexivity.
Qed.

Lemma index_thread_get_In (thread : list Comment) (k : string)
  (c : Comment) :
  Dict.get (index_thread thread) k = Some c -> In c thread /\ id c = k.
Proof.
  unfold index_thread. rewrite get_fold_setitem.
  destruct (find _ (rev thread)) as [c'|] eqn:E; [|discriminate].
  intros [= ->]. apply find_some in E. destruct E as [Hin Hid].
  split; [apply in_rev, Hin | apply String.eqb_eq, Hid].
Qed.

(** ** What [create_examples] yields *)

Lemma Forall2_In_r {A B : Type} (R : A -> B -> Prop) (l : list A)
  (l' : list B) (b : B) :
  Forall2 R l l' -> In b l' -> exists a, In a l /\ R a b.
Proof.
  intros H. induction H as [|a0 b0 l l' Hab H IH]; intros Hin; [destruct Hin|].
  destruct Hin as [<-|Hin].
  - exists a0. split; [left; reflexivity | exact Hab].
  - destruct (IH Hin) as (a & Ha & HR). exists a. split; [right|]; auto.
Qed.

(** Every yielded example is made from a linear path of the thread whose
    response and context are comments of the thread that are not
    skipped. *)
Lemma create_examples_In (encode_utf8 : string -> bytes)
  (thread : list Comment) (parent_depth min_length : nat)
  (examples : list Example) (example : Example) :
  create_examples encode_utf8 thread parent_depth min_length = Ok examples ->
  In example examples ->
  exists path response context,
    yielded_ok (index_thread thread) parent_depth path
    /\ In response thread /\ In context thread
    /\ _should_skip response min_length = false
    /\ _should_skip context min_length = false
    /\ example = example_fields encode_utf8 (index_thread thread)
                   parent_depth path response context.
Proof.
  intros E Hin. unfold create_examples in E.
  destruct (linear_paths_spec (index_thread thread) parent_depth
              (wf_index_thread thread)) as (paths & Ep & Hy & _).
  rewrite Ep in E. cbn [bind] in E.
  destruct (examples_of_paths_spec encode_utf8 (index_thread thread)
              parent_depth min_length paths Hy) as (outs & HF & Eo).
  rewrite Eo in E. injection E as <-.
  apply in_flat_map in Hin. destruct Hin as (o & Ho & He).
  destruct o as [e|]; [|destruct He].
  destruct He as [->|[]].
  destruct (Forall2_In_r _ _ _ _ HF Ho) as (path & Hpath & Hex).
  rewrite Forall_forall in Hy. pose proof (Hy path Hpath) as Hp.
  destruct (example_of_path_spec encode_utf8 (index_thread thread)
              parent_depth min_length path Hp)
    as (r & c & cid & Hr & _ & Hc & Ee).
  rewrite Ee in Hex.
  destruct (_should_skip r min_length) eqn:Hsr;
    [discriminate|].
  destruct (_should_skip c min_length) eqn:Hsc;
    [discriminate|].
  cbn [orb] in Hex. injection Hex as <-.
  exists path, r, c.
  apply index_thread_get_In in Hr. apply index_thread_get_In in Hc.
  destruct Hp as [H2 Hok].
  split; [split; assumption|]. split; [apply Hr|]. split; [apply Hc|].
  repeat split; assumption.
Qed.

(** X9: All examples of a thread go to the same side of the split: when the
    comments of the thread share their [thread_id], [process] gives every
    example that [create_examples] yields the same tag, the one decided by
    the digest of that [thread_id]. *)
Theorem split_is_per_thread (md5 : bytes -> N)
  (encode_utf8 : string -> bytes) (train_split : Q) (thread : list Comment)
  (t : string) (parent_depth min_length : nat) (examples : list Example) :
  (forall c, In c thread -> thread_id c = t) ->
  create_examples encode_utf8 thread parent_depth min_length = Ok examples ->
  exists tag,
    (tag = "train" \/ tag = "test")
    /\ forall example, In example examples ->
         process md5 train_split default_num_buckets example
         = Ok (tag, example).
Proof.
  intros Hsame E.
  exists (if Qltb (Z.of_N (1 + md5 (encode_utf8 t) mod 4096) # 4096)
               train_split then TRAIN_TAG else TEST_TAG).
  split; [destruct (Qltb _ _); [left | right]; reflexivity|].
  intros e Hin.
  destruct (create_examples_In encode_utf8 thread parent_depth min_length
              examples e E Hin) as (path & r & c & _ & Hr & _ & _ & _ & ->).
  unfold process.
  change (Dict.get_default (example_fields encode_utf8 _ _ _ r c) "thread_id")
    with [encode_utf8 (thread_id r)].
  rewrite (Hsame r Hr). reflexivity.
Qed.

Lemma split_is_per_thread_witness :
  exists tag,
    (tag = "train" \/ tag = "test")
    /\ forall example,
         In example
           [example_fields list_byte_of_string (index_thread chain_thread) 2
              ["A"; "B"]
              (sample_comment "B" "A" "a reply to the first")
              (sample_comment "A" "abc" "the first comment")] ->
         process sample_digest (9 # 10) default_num_buckets example
         = Ok (tag, example).
Proof.
  apply (split_is_per_thread sample_digest list_byte_of_string (9 # 10)
           chain_thread "abc" 2 5).
  - intros c Hc. cbn in Hc.
    destruct Hc as [<-|[<-|[<-|[<-|[]]]]]; reflexivity.
  - reflexivity.
Defined.



(** ** [min_length] only removes examples *)

Lemma should_skip_mono (c : Comment) (m1 m2 : nat) :
  m1 <= m2 -> _should_skip c m1 = true -> _should_skip c m2 = true.
Proof.
  intros Hle H. apply should_skip_iff in H. apply should_skip_iff.
  destruct H as [H|[H|[H|H]]]; auto. right. right. right. lia.
Qed.

Lemma examples_of_paths_antitone (encode_utf8 : string -> bytes)
  (d : Dict.t Comment) (parent_depth m1 m2 : nat)
  (paths : list (list string)) :
  m1 <= m2 ->
  Forall (yielded_ok d parent_depth) paths ->
  exists ex1 ex2,
    examples_of_paths encode_utf8 d parent_depth m1 paths = Ok ex1
    /\ examples_of_paths encode_utf8 d parent_depth m2 paths = Ok ex2
    /\ incl ex2 ex1 /\ List.length ex2 <= List.length ex1.
Proof.
  intros Hle. induction paths as [|path paths IH]; intros Hall.
  - exists [], []. repeat split; auto. intros x [].
  - inversion Hall as [|? ? Hp Hall']; subst.
    destruct (IH Hall') as (ex1 & ex2 & E1 & E2 & Hincl & Hlen).
    destruct (example_of_path_spec encode_utf8 d parent_depth m1 path Hp)
      as (r & c & cid & Hr & Hcid & Hc & Ep1).
    destruct (example_of_path_spec encode_utf8 d parent_depth m2 path Hp)
      as (r' & c' & cid' & Hr' & Hcid' & Hc' & Ep2).
    assert (r' = r) by congruence. assert (cid' = cid) by congruence.
    subst r' cid'. assert (c' = c) by congruence. subst c'.
    cbn [examples_of_paths]. rewrite Ep1, Ep2, E1, E2. cbn [bind].
    destruct (_should_skip r m1 || _should_skip c m1) eqn:H1.
    + assert (H2 : _should_skip r m2 || _should_skip c m2 = true).
      { apply orb_true_iff. apply orb_true_iff in H1.
        destruct H1; [left | right]; eapply should_skip_mono; eauto. }
      rewrite H2. exists ex1, ex2. repeat split; auto.
    + destruct (_should_skip r m2 || _should_skip c m2).
      * eexists. exists ex2. repeat split; auto.
        -- intros x Hx. right. apply Hincl, Hx.
        -- cbn. lia.
      * eexists. eexists. repeat split; auto.
        -- intros x [<-|Hx]; [left; reflexivity | right; apply Hincl, Hx].
        -- cbn. lia.
Qed.

(** X11: Raising [min_length] can only remove examples: each example yielded
    for the larger bound is, unchanged, among those yielded for the smaller
    one, and there are no more of them. *)
Theorem create_examples_min_length_antitone (encode_utf8 : string -> bytes)
  (thread : list Comment) (parent_depth m1 m2 : nat) :
  m1 <= m2 ->
  exists ex1 ex2,
    create_examples encode_utf8 thread parent_depth m1 = Ok ex1
    /\ create_examples encode_utf8 thread parent_depth m2 = Ok ex2
    /\ incl ex2 ex1 /\ List.length ex2 <= List.length ex1.
Proof.
  intros Hle. unfold create_examples.
  destruct (linear_paths_spec (index_thread thread) parent_depth
              (wf_index_thread thread)) as (paths & -> & Hy & _).
  cbn [bind].
  apply examples_of_paths_antitone; assumption.
Qed.

Lemma create_examples_min_length_antitone_witness :
  5 <= 30
  /\ exists ex1 ex2,
       create_examples list_byte_of_string deep_thread 3 5 = Ok ex1
       /\ create_examples list_byte_of_string deep_thread 3 30 = Ok ex2
       /\ incl ex2 ex1 /\ List.length ex2 <= List.length ex1.
Proof.
  split; [lia|].
  apply (create_examples_min_length_antitone list_byte_of_string
           deep_thread 3 5 30).
  lia.
Defined.

(** ** From the raw body to the filter *)

(** X12: Whether a normalised comment is skipped can be read off its raw body:
    it is skipped exactly when the raw body is longer than [max_length],
    is one of the two placeholders, or is shorter than [min_length]. *)
Theorem should_skip_of_raw_body (isalnum : ascii -> bool) (comment : Row)
  (max_length min_length : nat) (c : Comment) :
  normalise_comment isalnum comment max_length = Ok c ->
  (_should_skip c min_length = true
   <-> max_length < String.length (row_body comment)
       \/ row_body comment = "[deleted]" \/ row_body comment = "[removed]"
       \/ String.length (row_body comment) < min_length).
Proof.
  intros E. unfold normalise_comment in E.
  destruct (trim isalnum (row_body comment) max_length) as [b| |] eqn:Et;
    try discriminate.
  cbn [bind] in E. injection E as <-.
  destruct (Nat.ltb_spec max_length (String.length (row_body comment)))
    as [Hlong|Hshort].
  - split; [intros _; left; exact Hlong | intros _; reflexivity].
  - unfold trim in Et.
    destruct (Nat.leb_spec (String.length (row_body comment)) max_length);
      [|lia].
    injection Et as <-. rewrite should_skip_iff.
    cbn [body body_is_trimmed]. split.
    + intros [H'|H']; [discriminate | tauto].
    + intros [H'|H']; [lia | tauto].
Qed.

Lemma should_skip_of_raw_body_witness :
  normalise_comment ascii_isalnum
    (mkRow "c1" "t3_abc" "t1_c0" "aa bb cc" "x" "r") 4
  = Ok (mkComment "c1" "abc" "c0" "aa " true "x" "r")
  /\ _should_skip (mkComment "c1" "abc" "c0" "aa " true "x" "r") 1 = true.
Proof.
  split; [reflexivity|].
  apply (should_skip_of_raw_body ascii_isalnum
           (mkRow "c1" "t3_abc" "t1_c0" "aa bb cc" "x" "r") 4 1
           (mkComment "c1" "abc" "c0" "aa " true "x" "r") eq_refl).
  left. cbn. lia.
Defined.

(** ** [process]: failures and thresholds *)


(** X14: The split value takes the values [k/4096] for [k] from 1 to 4096
    only, and the comparison is strict.  So a threshold above 1 sends
    every example to "train", a threshold of at most [1/4096] sends every
    example to "test", and a threshold between [3686/4096] (excluded) and
    [3687/4096] (included), as 0.9 is, sends to "train" exactly the
    examples whose digest modulo 4096 is below 3686. *)
Theorem process_thresholds (md5 : bytes -> N) (train_split : Q)
  (example : Example) (thread_id : bytes) :
  Dict.get_default example "thread_id" = [thread_id] ->
  ((1 < train_split)%Q ->
   process md5 train_split default_num_buckets example
   = Ok ("train", example))
  /\ ((train_split <= 1 # 4096)%Q ->
      process md5 train_split default_num_buckets example
      = Ok ("test", example))
  /\ ((3686 # 4096 < train_split)%Q -> (train_split <= 3687 # 4096)%Q ->
      process md5 train_split default_num_buckets example
      = Ok (if (md5 thread_id mod 4096 <? 3686)%N then "train" else "test",
            example)).
Proof.
  intros Hid. unfold process. rewrite Hid.
  change (_split_value md5 default_num_buckets thread_id)
    with (@Ok Q (Z.of_N (1 + md5 thread_id mod 4096) # 4096)).
  cbn [bind].
  assert (Hmod : (md5 thread_id mod 4096 < 4096)%N)
    by (apply N.mod_lt; discriminate).
  set (m := (md5 thread_id mod 4096)%N) in *.
  set (v := (Z.of_N (1 + m) # 4096)%Q).
  assert (Hlo : (1 # 4096 <= v)%Q) by (unfold v, Qle; cbn [Qnum Qden]; lia).
  assert (Hhi : (v <= 1)%Q) by (unfold v, Qle; cbn [Qnum Qden]; lia).
  split; [|split].
  - intros Hts.
    assert (Hlt : Qltb v train_split = true).
    { apply Qltb_spec. eapply Qle_lt_trans; eauto. }
    rewrite Hlt. reflexivity.
  - intros Hts.
    assert (Hge : Qltb v train_split = false).
    { destruct (Qltb v train_split) eqn:E; [|reflexivity].
      apply Qltb_spec in E. exfalso.
      apply (Qlt_not_le _ _ E). eapply Qle_trans; eauto. }
    rewrite Hge. reflexivity.
  - intros Hts1 Hts2. destruct (N.ltb_spec m 3686) as [Hm|Hm].
    + assert (Hlt : Qltb v train_split = true).
      { apply Qltb_spec. eapply Qle_lt_trans; [|exact Hts1].
        unfold v, Qle. cbn [Qnum Qden]. lia. }
      rewrite Hlt. reflexivity.
    + assert (Hge : Qltb v train_split = false).
      { destruct (Qltb v train_split) eqn:E; [|reflexivity].
        apply Qltb_spec in E. exfalso.
        apply (Qlt_not_le _ _ E). eapply Qle_trans; [exact Hts2|].
        unfold v, Qle. cbn [Qnum Qden]. lia. }
      rewrite Hge. reflexivity.
Qed.

Lemma process_thresholds_witness :
  Dict.get_default [("thread_id", [list_byte_of_string "abc"])] "thread_id"
  = [list_byte_of_string "abc"]
  /\ (3686 # 4096 < 9 # 10)%Q /\ (9 # 10 <= 3687 # 4096)%Q
  /\ process sample_digest (9 # 10) default_num_buckets
       [("thread_id", [list_byte_of_string "abc"])]
     = Ok ("train", [("thread_id", [list_byte_of_string "abc"])]).
Proof.
  split; [reflexivity|].
  assert (H1 : (3686 # 4096 < 9 # 10)%Q) by (unfold Qlt; cbn; lia).
  assert (H2 : (9 # 10 <= 3687 # 4096)%Q) by (unfold Qle; cbn; lia).
  split; [exact H1|]. split; [exact H2|].
  destruct (process_thresholds sample_digest (9 # 10)
              [("thread_id", [list_byte_of_string "abc"])]
              (list_byte_of_string "abc") eq_refl) as (_ & _ & H).
  rewrite (H H1 H2). reflexivity.
Defined.

(** ** [_add_string_feature] *)


(** ** [parent_depth] changes the context fields only *)

Lemma same_pair_same_end (p q : list string) : same_pair p q -> same_end p q.
Proof.
  intros (a & b & p' & q' & -> & ->). unfold same_end, last_id.
  repeat split.
  - destruct p'; discriminate.
  - destruct q'; discriminate.
  - change [a; b] with ([a] ++ [b]). rewrite !app_assoc, !last_last.
    reflexivity.
Qed.

Lemma new_paths_same_pair (pd1 pd2 : nat) (p q : list string) (c : string) :
  same_end p q ->
  same_pair (Py.slice_from_neg p pd1 ++ [c]) (Py.slice_from_neg q pd2 ++ [c]).
Proof.
  intros (Hp & Hq & Hl).
  pose proof (slice_from_neg_nonempty p pd1 Hp) as Hp'.
  pose proof (slice_from_neg_nonempty q pd2 Hq) as Hq'.
  destruct (exists_last Hp') as (p' & a & Ep).
  destruct (exists_last Hq') as (q' & b & Eq).
  assert (Ha : a = last_id p).
  { rewrite <- (slice_from_neg_last p pd1 Hp), Ep.
    unfold last_id. rewrite last_last. reflexivity. }
  assert (Hb : b = last_id q).
  { rewrite <- (slice_from_neg_last q pd2 Hq), Eq.
    unfold last_id. rewrite last_last. reflexivity. }
  exists a, c, p', q'. rewrite Ep, Eq, <- !app_assoc.
  split; [reflexivity|]. cbn [app]. congruence.
Qed.

Lemma extend_path_depth (pd1 pd2 : nat) (p q children : list string) :
  same_end p q ->
  forall seen nps1 seen1,
    extend_path pd1 p children seen = (nps1, seen1) ->
    exists nps2,
      extend_path pd2 q children seen = (nps2, seen1)
      /\ Forall2 same_pair nps1 nps2.
Proof.
  intros Hpq. induction children as [|c children IH];
    intros seen nps1 seen1 E.
  - cbn in *. injection E as <- <-. exists []. split; [reflexivity|constructor].
  - cbn [extend_path] in *. destruct (Py.mem c seen).
    + apply IH, E.
    + destruct (extend_path pd1 p children (set_add c seen))
        as [n1 s1] eqn:E1.
      injection E as <- <-.
      destruct (IH _ _ _ E1) as (n2 & -> & HF).
      eexists. split; [reflexivity|].
      constructor; [apply new_paths_same_pair, Hpq | exact HF].
Qed.

Lemma extend_paths_depth (pd1 pd2 : nat) (ch : Dict.t (list string))
  (paths1 paths2 : list (list string)) :
  Forall2 same_end paths1 paths2 ->
  forall seen nps1 seen1,
    extend_paths pd1 ch paths1 seen = Ok (nps1, seen1) ->
    exists nps2,
      extend_paths pd2 ch paths2 seen = Ok (nps2, seen1)
      /\ Forall2 same_pair nps1 nps2.
Proof.
  intros HF. induction HF as [|p q paths1 paths2 Hpq HF IH];
    intros seen nps1 seen1 E.
  - cbn in *. injection E as <- <-. exists []. split; [reflexivity|constructor].
  - cbn [extend_paths] in *.
    destruct Hpq as (Hp & Hq & Hl).
    rewrite index_neg_last in E by exact Hp.
    rewrite index_neg_last by exact Hq. cbn [bind] in *.
    rewrite <- Hl.
    destruct (extend_path pd1 p (Dict.get_default ch (last_id p)) seen)
      as [n1 s1] eqn:E1.
    destruct (extend_path_depth pd1 pd2 p q _ (conj Hp (conj Hq Hl)) _ _ _ E1)
      as (n2 & -> & HF1).
    destruct (extend_paths pd1 ch paths1 s1) as [[n1' s1']| |] eqn:E2;
      try discriminate.
    cbn [bind] in E. injection E as <- <-.
    destruct (IH _ _ _ E2) as (n2' & -> & HF2). cbn [bind].
    eexists. split; [reflexivity|]. apply Forall2_app; assumption.
Qed.

Lemma paths_loop_depth (pd1 pd2 : nat) (ch : Dict.t (list string))
  (fuel : nat) :
  forall paths1 paths2 seen out1,
    Forall2 same_end paths1 paths2 ->
    paths_loop fuel pd1 ch paths1 seen = Ok out1 ->
    exists out2,
      paths_loop fuel pd2 ch paths2 seen = Ok out2
      /\ Forall2 same_pair out1 out2.
Proof.
  induction fuel as [|fuel IH]; intros paths1 paths2 seen out1 HF E.
  - destruct HF; [|discriminate]. injection E as <-.
    exists []. split; [reflexivity|constructor].
  - destruct HF as [|p q paths1 paths2 Hpq HF].
    { injection E as <-. exists []. split; [reflexivity|constructor]. }
    cbn [paths_loop] in *.
    destruct (extend_paths pd1 ch (p :: paths1) seen) as [[n1 s1]| |] eqn:E1;
      try discriminate.
    destruct (extend_paths_depth pd1 pd2 ch (p :: paths1) (q :: paths2)
                (Forall2_cons _ _ Hpq HF) _ _ _ E1) as (n2 & -> & HF1).
    cbn [bind] in *.
    destruct (paths_loop fuel pd1 ch n1 s1) as [r1| |] eqn:E2;
      try discriminate.
    cbn [bind] in E. injection E as <-.
    assert (HF1' : Forall2 same_end n1 n2).
    { eapply Forall2_impl; [|exact HF1]. apply same_pair_same_end. }
    destruct (IH _ _ _ _ HF1' E2) as (r2 & -> & HF2). cbn [bind].
    eexists. split; [reflexivity|]. apply Forall2_app; assumption.
Qed.

Lemma Forall2_same_end_refl (paths : list (list string)) :
  Forall (fun p => p <> []) paths -> Forall2 same_end paths paths.
Proof.
  induction 1; constructor; auto. repeat split; auto.
Qed.

(** The traversal does not depend on [parent_depth]: two runs yield their
    paths in the same order, and paths at the same position end in the
    same two comments. *)
Lemma linear_paths_depth (d : Dict.t Comment) (pd1 pd2 : nat)
  (out1 : list (list string)) :
  linear_paths d pd1 = Ok out1 ->
  exists out2, linear_paths d pd2 = Ok out2 /\ Forall2 same_pair out1 out2.
Proof.
  unfold linear_paths.
  destruct (build_index_fold d d [] [] []) as (seen & ch & E & _ & _).
  pose proof (E : build_index d
                  = ([] ++ map (fun k => [k]) (root_ids d d), seen, ch))
    as Eb.
  rewrite Eb. cbn [app].
  apply paths_loop_depth. apply Forall2_same_end_refl.
  apply Forall_forall. intros p Hin. apply in_map_iff in Hin.
  destruct Hin as (k & <- & _). discriminate.
Qed.

Lemma same_pair_lookups (p q : list string) :
  same_pair p q ->
  last_id p = last_id q
  /\ nth_error p (List.length p - 2) = nth_error q (List.length q - 2).
Proof.
  intros H. split; [apply same_pair_same_end in H; apply H|].
  destruct H as (a & b & p' & q' & -> & ->).
  rewrite !length_app. cbn [List.length].
  replace (List.length p' + 2 - 2) with (List.length p' + 0) by lia.
  replace (List.length q' + 2 - 2) with (List.length q' + 0) by lia.
  rewrite !nth_error_app2 by lia.
  replace (List.length p' + 0 - List.length p') with 0 by lia.
  replace (List.length q' + 0 - List.length q') with 0 by lia.
  reflexivity.
Qed.

Lemma examples_of_paths_depth (encode_utf8 : string -> bytes)
  (d : Dict.t Comment) (pd1 pd2 min_length : nat)
  (paths1 paths2 : list (list string)) :
  Forall2 same_pair paths1 paths2 ->
  Forall (yielded_ok d pd1) paths1 -> Forall (yielded_ok d pd2) paths2 ->
  exists ex1 ex2,
    examples_of_paths encode_utf8 d pd1 min_length paths1 = Ok ex1
    /\ examples_of_paths encode_utf8 d pd2 min_length paths2 = Ok ex2
    /\ Forall2 (fun e1 e2 => firstn 6 e1 = firstn 6 e2) ex1 ex2.
Proof.
  intros HF. induction HF as [|p q paths1 paths2 Hpq HF IH];
    intros H1 H2.
  - exists [], []. repeat split; constructor.
  - inversion H1 as [|? ? Hp H1']; subst.
    inversion H2 as [|? ? Hq H2']; subst.
    destruct (IH H1' H2') as (ex1 & ex2 & E1 & E2 & HFe).
    destruct (example_of_path_spec encode_utf8 d pd1 min_length p Hp)
      as (r & c & cid & Hr & Hcid & Hc & Ep).
    destruct (example_of_path_spec encode_utf8 d pd2 min_length q Hq)
      as (r' & c' & cid' & Hr' & Hcid' & Hc' & Eq).
    destruct (same_pair_lookups p q Hpq) as [Hl Hn].
    rewrite <- Hl in Hr'. rewrite <- Hn in Hcid'.
    assert (r' = r) by congruence. assert (cid' = cid) by congruence.
    subst r' cid'. assert (c' = c) by congruence. subst c'.
    cbn [examples_of_paths]. rewrite Ep, Eq, E1, E2. cbn [bind].
    destruct (_should_skip r min_length || _should_skip c min_length).
    + exists ex1, ex2. repeat split; auto.
    + eexists. eexists. repeat split; auto.
Qed.

(** X16: [parent_depth] decides the [context/i] fields and nothing else: for
    any two depths [create_examples] yields the same number of examples,
    in the same order, and examples at the same position agree on the six
    fields of the pair. *)
Theorem create_examples_depth_independent (encode_utf8 : string -> bytes)
  (thread : list Comment) (pd1 pd2 min_length : nat) :
  exists ex1 ex2,
    create_examples encode_utf8 thread pd1 min_length = Ok ex1
    /\ create_examples encode_utf8 thread pd2 min_length = Ok ex2
    /\ List.length ex1 = List.length ex2
    /\ Forall2 (fun e1 e2 => firstn 6 e1 = firstn 6 e2) ex1 ex2.
Proof.
  unfold create_examples.
  destruct (linear_paths_spec (index_thread thread) pd1
              (wf_index_thread thread)) as (out1 & E1 & Hy1 & _).
  destruct (linear_paths_spec (index_thread thread) pd2
              (wf_index_thread thread)) as (out2 & E2 & Hy2 & _).
  destruct (linear_paths_depth _ pd1 pd2 out1 E1) as (out2' & E2' & HF).
  assert (out2' = out2) by congruence. subst out2'.
  rewrite E1, E2. cbn [bind].
  destruct (examples_of_paths_depth encode_utf8 (index_thread thread)
              pd1 pd2 min_length out1 out2 HF Hy1 Hy2)
    as (ex1 & ex2 & Ee1 & Ee2 & HFe).
  exists ex1, ex2. repeat split; auto.
  eapply Forall2_length, HFe.
Qed.

